(** * Remotify: request/response calls over a publish/subscribe bus

    A shallow embedding of [src/remotify.ts]: the JSON wire format used by
    the two halves of the protocol, the topic scheme, objects with their
    prototypes ([getAllRelevantFunctions]), the [Listen] side ([onCall],
    [listen], [listenAll]), the [Remotify] side ([addCallback],
    [onCallback], [remotify], [remotifyAll], [remotifyFunction],
    [remotifyClass]) with its promise plumbing written out as explicit
    state, and the event channel ([publish], [onEvent]).

    Conventions of the embedding:
    - a JavaScript value is a [value]; numbers are the integers (the protocol
      only ever produces integer ids), so fractions and exponents are outside
      the modelled fragment of JSON;
    - a string is a [string] of 8-bit characters;
    - a function that may throw returns a [completion];
    - the cooperative scheduler is modelled by atomic [event]s: each bus
      delivery, publish acknowledgement and timer expiry runs to completion
      (including the promise reactions it triggers) before the next. *)

From Stdlib Require Import ZArith NArith String Ascii List Lia Bool.
From Stdlib Require Import Decimal DecimalString DecimalN DecimalFacts Sorted.
From stdpp Require Import gmap strings.
Import ListNotations.

Set Warnings "-register-all".
Open Scope string_scope.
Open Scope Z_scope.
Open Scope list_scope.

(** ** JavaScript values *)

(** The values that travel through the protocol.  [VError] is an instance
    of [Error]: [message], [stack] and [name] are what [e.message],
    [e.stack] and [e.name] evaluate to ([stack] is optional in the
    TypeScript declaration of [Error]); [props] lists, in [Object.keys]
    order, each own enumerable property [k] with [e[k]]. *)
Inductive value : Type :=
| VUndefined
| VNull
| VBool (b : bool)
| VNum (n : Z)
| VStr (s : string)
| VArr (items : list value)
| VObj (fields : list (string * value))
| VError (message : string) (stack : option string) (name : string)
         (props : list (string * value)).

(** What a call of user code, or of a built-in that may throw, produces. *)
Inductive completion (A : Type) : Type :=
| Normal (a : A)
| Throw (e : value).
Arguments Normal {A} a.
Arguments Throw {A} e.

(** [o[k]] on a plain object: the property, or [undefined]. *)
Fixpoint obj_get (k : string) (o : list (string * value)) : value :=
  match o with
  | [] => VUndefined
  | (k', v) :: r => if String.eqb k' k then v else obj_get k r
  end.

(** [k in o] for own properties. *)
Fixpoint obj_has (k : string) (o : list (string * value)) : bool :=
  match o with
  | [] => false
  | (k', _) :: r => String.eqb k' k || obj_has k r
  end.

(** [o[k] = v]: overwrite in place, or append a new property. *)
Fixpoint obj_set (o : list (string * value)) (k : string) (v : value)
  : list (string * value) :=
  match o with
  | [] => [(k, v)]
  | (k', v') :: r =>
      if String.eqb k' k then (k', v) :: r else (k', v') :: obj_set r k v
  end.

Definition opt_str (s : option string) : value :=
  match s with Some s => VStr s | None => VUndefined end.

(** [jsonReplacer] of the source: an [Error] becomes a plain record of
    [message], [stack], [name] and its own enumerable properties; any other
    value is returned as it is.  An enumerable property named [message],
    [stack] or [name] is the one [e.message], [e.stack] or [e.name] reads;
    the loop over [Object.keys(e)] writes it over the initial field, so the
    record is the same whichever of the two the initial field was read
    from. *)
Definition jsonReplacer (_key : string) (e : value) : value :=
  match e with
  | VError message stack name props =>
      let obj := [("message", VStr message);
                  ("stack", opt_str stack);
                  ("name", VStr name)] in
      VObj (fold_left (fun obj kv => obj_set obj (fst kv) (snd kv)) props obj)
  | _ => e
  end.

(** [JSON.stringify] called without a replacer. *)
Definition no_replacer (_key : string) (e : value) : value := e.

(** ** JSON text *)

(** The double quote, character 34. *)
Definition dquote : ascii :=
  Ascii false true false false false true false false.

(** [s] between double quotes. *)
Definition quoted (s : string) : string :=
  String dquote (s +:+ String dquote EmptyString).

(** A text written with single quotes for the double ones, to state
    payloads legibly. *)
Fixpoint dq (s : string) : string :=
  match s with
  | EmptyString => EmptyString
  | String c r => String (if Ascii.eqb c "'"%char then dquote else c) (dq r)
  end.

Abbreviation text := (list ascii).

Definition show_N (n : N) : text :=
  list_ascii_of_string (NilEmpty.string_of_uint (N.to_uint n)).

Definition show_Z (z : Z) : text :=
  if z <? 0 then "-"%char :: show_N (Z.abs_N z) else show_N (Z.to_N z).

Definition show_nat (n : nat) : string :=
  NilEmpty.string_of_uint (Nat.to_uint n).

Definition hex_digit (n : N) : ascii :=
  ascii_of_N (if (n <? 10)%N then 48 + n else 87 + n).

(** The escape of one character inside a JSON string, as [JSON.stringify]
    writes it. *)
Definition escape_char (c : ascii) : text :=
  let n := N_of_ascii c in
  if (n =? 34)%N then ["\"%char; dquote]
  else if (n =? 92)%N then ["\"; "\"]%char
  else if (n =? 8)%N then ["\"; "b"]%char
  else if (n =? 12)%N then ["\"; "f"]%char
  else if (n =? 10)%N then ["\"; "n"]%char
  else if (n =? 13)%N then ["\"; "r"]%char
  else if (n =? 9)%N then ["\"; "t"]%char
  else if (n <? 32)%N then
    ["\"; "u"; "0"; "0"; hex_digit (n / 16); hex_digit (n mod 16)]%char
  else [c].

Fixpoint escape (s : string) : text :=
  match s with
  | EmptyString => []
  | String c r => escape_char c ++ escape r
  end.

Definition quote (s : string) : text :=
  dquote :: escape s ++ [dquote].

Fixpoint join_comma (l : list text) : text :=
  match l with
  | [] => []
  | [t] => t
  | t :: r => t ++ ","%char :: join_comma r
  end.

Definition lit (s : string) : text := list_ascii_of_string s.

Section Serialize.
(** One level of [SerializeJSONProperty]; [rec] serialises a property of
    the value at hand. *)
Variable rec : string -> value -> option text.

(** Array elements: [undefined] is written as [null]. *)
Fixpoint ser_elems (i : nat) (l : list value) : list text :=
  match l with
  | [] => []
  | x :: r =>
      match rec (show_nat i) x with
      | Some t => t
      | None => lit "null"
      end :: ser_elems (S i) r
  end.

(** Object members: a property whose value is [undefined] is left out. *)
Fixpoint ser_members (l : list (string * value)) : list text :=
  match l with
  | [] => []
  | (k, x) :: r =>
      match rec k x with
      | Some t => (quote k ++ ":"%char :: t) :: ser_members r
      | None => ser_members r
      end
  end.
End Serialize.

(** [SerializeJSONProperty] of ECMAScript: the replacer is applied to the
    property first, then the result is written by type.  [None] is
    [undefined] (nothing to write).  An [Error] that the replacer leaves in
    place is written like any object, from its enumerable properties.
    [fuel] bounds the nesting depth. *)
Fixpoint SerializeJSONProperty (fuel : nat)
    (replacer : string -> value -> value) (key : string) (v : value)
  : option text :=
  match fuel with
  | O => None
  | S fuel' =>
      let rec := SerializeJSONProperty fuel' replacer in
      match replacer key v with
      | VUndefined => None
      | VNull => Some (lit "null")
      | VBool true => Some (lit "true")
      | VBool false => Some (lit "false")
      | VNum n => Some (show_Z n)
      | VStr s => Some (quote s)
      | VArr items =>
          Some ("["%char :: join_comma (ser_elems rec 0 items) ++ ["]"%char])
      | VObj fields | VError _ _ _ fields =>
          Some ("{"%char :: join_comma (ser_members rec fields) ++ ["}"%char])
      end
  end.

Definition max_of (l : list nat) : nat := fold_right Nat.max O l.

(** Nesting depth of a value; an [Error] counts the record that
    [jsonReplacer] makes of it. *)
Fixpoint height (v : value) : nat :=
  match v with
  | VArr items => S (max_of (map height items))
  | VObj fields => S (max_of (map (fun kv => height (snd kv)) fields))
  | VError _ _ _ props =>
      S (Nat.max 1 (max_of (map (fun kv => height (snd kv)) props)))
  | _ => 1%nat
  end.

(** [JSON.stringify(v, replacer)]: [None] when the result is [undefined].
    The depth bound is that of [v], which is enough for a replacer that does
    not deepen its argument ([jsonReplacer] and [no_replacer] do not). *)
Definition JSON_stringify (replacer : string -> value -> value) (v : value)
  : option string :=
  match SerializeJSONProperty (S (height v)) replacer "" v with
  | Some t => Some (string_of_list_ascii t)
  | None => None
  end.

(** ** JSON parsing *)

Definition is_ws (c : ascii) : bool :=
  let n := N_of_ascii c in
  (n =? 32)%N || (n =? 9)%N || (n =? 10)%N || (n =? 13)%N.

Fixpoint skip_ws (s : text) : text :=
  match s with
  | c :: r => if is_ws c then skip_ws r else s
  | [] => []
  end.

Definition digit_of (c : ascii) : option (uint -> uint) :=
  match c with
  | "0"%char => Some D0 | "1"%char => Some D1 | "2"%char => Some D2
  | "3"%char => Some D3 | "4"%char => Some D4 | "5"%char => Some D5
  | "6"%char => Some D6 | "7"%char => Some D7 | "8"%char => Some D8
  | "9"%char => Some D9 | _ => None
  end.

Definition is_digit (c : ascii) : bool :=
  match digit_of c with Some _ => true | None => false end.

(** The longest prefix of digits, as a decimal numeral. *)
Fixpoint read_uint (s : text) : uint * text :=
  match s with
  | c :: r =>
      match digit_of c with
      | Some d => let '(u, r') := read_uint r in (d u, r')
      | None => (Nil, s)
      end
  | [] => (Nil, [])
  end.

(** An unsigned integer literal: at least one digit, no leading zero. *)
Definition parse_N (s : text) : option (N * text) :=
  let '(u, r) := read_uint s in
  if Decimal.uint_beq u (unorm u) then Some (N.of_uint u, r) else None.

Definition parse_number (s : text) : option (Z * text) :=
  match s with
  | c :: r =>
      if Ascii.eqb c "-"%char then
        match parse_N r with
        | Some (n, r') => Some (- Z.of_N n, r')
        | None => None
        end
      else
        match parse_N s with
        | Some (n, r') => Some (Z.of_N n, r')
        | None => None
        end
  | [] => None
  end.

Definition hex_value (c : ascii) : option N :=
  let n := N_of_ascii c in
  if (48 <=? n)%N && (n <=? 57)%N then Some (n - 48)%N
  else if (97 <=? n)%N && (n <=? 102)%N then Some (n - 87)%N
  else if (65 <=? n)%N && (n <=? 70)%N then Some (n - 55)%N
  else None.

(** The character a backslash escape stands for ([\u] apart). *)
Definition unescape (c : ascii) : option ascii :=
  if Ascii.eqb c dquote then Some dquote else
  match c with
  | "\"%char => Some "\"%char
  | "/"%char => Some "/"%char
  | "b"%char => Some (ascii_of_N 8)
  | "f"%char => Some (ascii_of_N 12)
  | "n"%char => Some (ascii_of_N 10)
  | "r"%char => Some (ascii_of_N 13)
  | "t"%char => Some (ascii_of_N 9)
  | _ => None
  end.

(** The body of a string literal, after the opening quote, up to and
    including the closing one.  Raw control characters are refused; of the
    [\uXXXX] escapes only those of an 8-bit character are in the model. *)
Fixpoint parse_string_body (s : text) : option (string * text) :=
  match s with
  | [] => None
  | c :: r =>
      if Ascii.eqb c dquote then Some (EmptyString, r)
      else if Ascii.eqb c "\"%char then
        match r with
        | "u"%char :: "0"%char :: "0"%char :: h :: l :: r' =>
            match hex_value h, hex_value l, parse_string_body r' with
            | Some h, Some l, Some (str, r'') =>
                Some (String (ascii_of_N (16 * h + l)) str, r'')
            | _, _, _ => None
            end
        | e :: r' =>
            match unescape e, parse_string_body r' with
            | Some c', Some (str, r'') => Some (String c' str, r'')
            | _, _ => None
            end
        | [] => None
        end
      else if (N_of_ascii c <? 32)%N then None
      else
        match parse_string_body r with
        | Some (str, r') => Some (String c str, r')
        | None => None
        end
  end.

(** The object a list of parsed members denotes: a repeated key keeps its
    first position and its last value. *)
Definition members_object (l : list (string * value)) : list (string * value) :=
  fold_left (fun obj kv => obj_set obj (fst kv) (snd kv)) l [].

Definition parse_literal (s : text) : option (value * text) :=
  match s with
  | "n"%char :: "u"%char :: "l"%char :: "l"%char :: r => Some (VNull, r)
  | "t"%char :: "r"%char :: "u"%char :: "e"%char :: r => Some (VBool true, r)
  | "f"%char :: "a"%char :: "l"%char :: "s"%char :: "e"%char :: r =>
      Some (VBool false, r)
  | _ => None
  end.

(** Recursive descent over the JSON grammar; [fuel] bounds the number of
    nested calls. *)
Fixpoint parse_value (fuel : nat) (s : text) : option (value * text) :=
  match fuel with
  | O => None
  | S fuel' =>
      match skip_ws s with
      | [] => None
      | c :: r =>
          if is_digit c || Ascii.eqb c "-"%char then
            match parse_number (c :: r) with
            | Some (n, r') => Some (VNum n, r')
            | None => None
            end
          else if Ascii.eqb c dquote then
            match parse_string_body r with
            | Some (str, r') => Some (VStr str, r')
            | None => None
            end
          else if Ascii.eqb c "["%char then
            match skip_ws r with
            | "]"%char :: r' => Some (VArr [], r')
            | _ =>
                match parse_elems fuel' r with
                | Some (l, r') => Some (VArr l, r')
                | None => None
                end
            end
          else if Ascii.eqb c "{"%char then
            match skip_ws r with
            | "}"%char :: r' => Some (VObj [], r')
            | _ =>
                match parse_members fuel' r with
                | Some (l, r') => Some (VObj (members_object l), r')
                | None => None
                end
            end
          else parse_literal (c :: r)
      end
  end
with parse_elems (fuel : nat) (s : text) : option (list value * text) :=
  match fuel with
  | O => None
  | S fuel' =>
      match parse_value fuel' s with
      | None => None
      | Some (v, r) =>
          match skip_ws r with
          | ","%char :: r' =>
              match parse_elems fuel' r' with
              | Some (vs, r'') => Some (v :: vs, r'')
              | None => None
              end
          | "]"%char :: r' => Some ([v], r')
          | _ => None
          end
      end
  end
with parse_members (fuel : nat) (s : text)
  : option (list (string * value) * text) :=
  match fuel with
  | O => None
  | S fuel' =>
      match skip_ws s with
      | [] => None
      | c :: r =>
          if negb (Ascii.eqb c dquote) then None
          else
            match parse_string_body r with
            | None => None
            | Some (k, r1) =>
                match skip_ws r1 with
                | ":"%char :: r2 =>
                    match parse_value fuel' r2 with
                    | None => None
                    | Some (v, r3) =>
                        match skip_ws r3 with
                        | ","%char :: r4 =>
                            match parse_members fuel' r4 with
                            | Some (kvs, r5) => Some ((k, v) :: kvs, r5)
                            | None => None
                            end
                        | "}"%char :: r4 => Some ([(k, v)], r4)
                        | _ => None
                        end
                    end
                | _ => None
                end
            end
      end
  end.

(** [JSON.parse]: [None] when the text is not JSON (a [SyntaxError] in the
    source). *)
Definition JSON_parse (s : string) : option value :=
  let t := list_ascii_of_string s in
  match parse_value (S (List.length t)) t with
  | Some (v, r) =>
      match skip_ws r with
      | [] => Some v
      | _ => None
      end
  | None => None
  end.

(** ** Conversions of the language *)

Fixpoint join_with (sep : string) (l : list string) : string :=
  match l with
  | [] => ""
  | [s] => s
  | s :: r => s +:+ sep +:+ join_with sep r
  end.

(** [String(v)], as a template literal or a property key applies it. *)
Fixpoint to_string (v : value) : string :=
  match v with
  | VUndefined => "undefined"
  | VNull => "null"
  | VBool true => "true"
  | VBool false => "false"
  | VNum n => string_of_list_ascii (show_Z n)
  | VStr s => s
  | VArr items =>
      join_with ","
        (map (fun x => match x with
                       | VUndefined | VNull => ""
                       | _ => to_string x
                       end) items)
  | VObj _ => "[object Object]"
  | VError message _ name _ =>
      if String.eqb message "" then name
      else if String.eqb name "" then message
      else name +:+ ": " +:+ message
  end.

(** A template-literal hole holding a destructured segment, which is
    [undefined] when the topic is too short. *)
Definition seg_string (o : option string) : string :=
  match o with Some s => s | None => "undefined" end.

(** Truthiness, as the conditional operator tests it. *)
Definition truthy (v : value) : bool :=
  match v with
  | VUndefined | VNull => false
  | VBool b => b
  | VNum n => negb (n =? 0)
  | VStr s => negb (String.eqb s "")
  | VArr _ | VObj _ | VError _ _ _ _ => true
  end.

(** Errors the engine or [new Error] creates.  The stack text is produced
    by the engine, and the model keeps its first line; the message texts of
    the engine's own errors are the engine's, and the model abbreviates
    them. *)
Definition new_error (name message : string) : value :=
  VError message (Some (name +:+ ": " +:+ message)) name [].

Definition TypeError (message : string) : value := new_error "TypeError" message.
Definition SyntaxError (message : string) : value := new_error "SyntaxError" message.

(** [v.k], read off a value, for own properties (inherited members are not
    in the model): reading a property of [undefined] or [null] throws, a
    primitive or an array has none of the keys the protocol reads. *)
Definition get_prop (v : value) (k : string) : completion value :=
  match v with
  | VUndefined | VNull =>
      Throw (TypeError ("Cannot read properties of " +:+ to_string v))
  | VObj fields => Normal (obj_get k fields)
  | VError message stack name props =>
      Normal (obj_get k (props ++ [("message", VStr message);
                                   ("stack", opt_str stack);
                                   ("name", VStr name)]))
  | _ => Normal VUndefined
  end.

(** [...v] in an argument list. *)
Definition spread (v : value) : completion (list value) :=
  match v with
  | VArr items => Normal items
  | VStr s =>
      Normal (map (fun c => VStr (String c EmptyString)) (list_ascii_of_string s))
  | _ => Throw (TypeError (to_string v +:+ " is not iterable"))
  end.

(** [JSON.parse(str)], throwing as the built-in does. *)
Definition JSON_parse_c (str : string) : completion value :=
  match JSON_parse str with
  | Some v => Normal v
  | None => Throw (SyntaxError "Unexpected token in JSON")
  end.

#[global] Instance completion_bind : MBind completion :=
  fun A B (k : A -> completion B) (c : completion A) =>
    match c with
    | Normal a => k a
    | Throw e => Throw e
    end.

(** ** Topics *)

(** [s.split(sep)] for a one-character separator. *)
Fixpoint split (sep : ascii) (s : string) : list string :=
  match s with
  | EmptyString => [EmptyString]
  | String c r =>
      if Ascii.eqb c sep then EmptyString :: split sep r
      else
        match split sep r with
        | h :: t => String c h :: t
        | [] => [String c EmptyString]
        end
  end.

(** [seg !== s] negated, for a destructured segment. *)
Definition seg_is (seg : option string) (s : string) : bool :=
  match seg with
  | Some x => String.eqb x s
  | None => false
  end.

Definition call_topic (serverid fnname : string) : string :=
  "/remotify/" +:+ serverid +:+ "/call/" +:+ fnname.

Definition callback_topic (serverid clientid : string) : string :=
  "/remotify/" +:+ serverid +:+ "/callback/" +:+ clientid.

Definition event_topic (ns : string) : string := "/remotifyEvent/" +:+ ns.

(** A message handed to [publish]: the topic and the payload
    ([JSON.stringify] yields [undefined] only when a replacer drops the
    root). *)
Definition publication : Type := string * option string.

(** ** The listening side *)

(** A registered function, by the settled outcome of [await fn(...args)]:
    [Normal] when it returns or its promise fulfils, [Throw] when it throws
    or its promise rejects. *)
Abbreviation handler := (list value -> completion value).

(** *** Objects and their functions *)

(** A function value: [fn_name] is what [fn.name] reads, [fn_call] the
    outcome of calling it.  For a method, [fn_call] is the outcome with
    [this] bound to the object the method is read from and bound to. *)
Record func : Type := { fn_name : string; fn_call : handler }.

(** A property of an object: a function, or a value that is none. *)
Inductive member : Type :=
| Method (fn : func)
| Data (v : value).

(** An object, by its own string-keyed properties in the order of
    [Object.getOwnPropertyNames], and its prototype.  [Object_prototype] is
    the object [Object.prototype], which the source compares by identity;
    its prototype is [null].  Properties are data properties. *)
Inductive object : Type :=
| null
| Object_prototype (own : list (string * member))
| Object_create (proto : object) (own : list (string * member)).

Fixpoint own_get (k : string) (own : list (string * member)) : option member :=
  match own with
  | [] => None
  | (k', m) :: r => if String.eqb k' k then Some m else own_get k r
  end.

(** [o[k]]: the own property, or else the inherited one; [None] is
    [undefined]. *)
Fixpoint object_get (o : object) (k : string) : option member :=
  match o with
  | null => None
  | Object_prototype own => own_get k own
  | Object_create proto own =>
      match own_get k own with
      | Some m => Some m
      | None => object_get proto k
      end
  end.

(** [typeof m === "function"]. *)
Definition typeof_function (m : option member) : bool :=
  match m with
  | Some (Method _) => true
  | _ => false
  end.

(** The [do ... while] loop of [getAllRelevantFunctions]: what the rounds
    that start at [objProto] add to [props].  A round appends the own
    property names of [objProto] and moves to its prototype; the loop ends
    when that prototype is [Object.prototype].  From [Object.prototype]
    itself the next round is at [null], where
    [Object.getOwnPropertyNames] throws. *)
Fixpoint own_names (objProto : object) : completion (list string) :=
  match objProto with
  | null | Object_prototype _ =>
      Throw (TypeError "Cannot convert undefined or null to object")
  | Object_create proto own =>
      match proto with
      | Object_prototype _ => Normal (map fst own)
      | _ =>
          match own_names proto with
          | Normal rest => Normal (map fst own ++ rest)
          | Throw e => Throw e
          end
      end
  end.

Definition getAllRelevantFunctions (obj : object) : completion (list string) :=
  props ← own_names obj;
  Normal (List.filter
            (fun unbound =>
               negb (String.eqb unbound "constructor")
               && typeof_function (object_get obj unbound))
            props).

(** [(obj[unbound] as Function).bind(obj)]: calling [bind] on a value that
    is no function throws. *)
Definition bind_method (obj : object) (unbound : string) : completion handler :=
  match object_get obj unbound with
  | Some (Method fn) => Normal (fn_call fn)
  | _ => Throw (TypeError "bind is not a function")
  end.


(** A class, by what [cls.name] and [cls.prototype] read. *)
Record class : Type := { cls_name : string; cls_prototype : object }.

Module Listen.

Record t : Type := {
  serverid : string;
  fns : gmap string handler;
  config_jsonReplacer : string -> value -> value;
  (** the topics this instance asked [subClient] for *)
  subscribed : list string;
}.

(** [new Listen(serverid, clients)] with the default [config]. *)
Definition new (serverid : string) : t :=
  {| serverid := serverid; fns := ∅;
     config_jsonReplacer := jsonReplacer; subscribed := [] |}.

(** [listen(fn, fnname)]. *)
Definition listen (fn : handler) (fnname : string) (self : t) : t :=
  {| serverid := serverid self;
     fns := <[fnname := fn]> (fns self);
     config_jsonReplacer := config_jsonReplacer self;
     subscribed := subscribed self ++ [call_topic (serverid self) fnname] |}.

Definition Callback (method : string) (callback : value) (success : bool)
    (result : value) : value :=
  VObj [("method", VStr method); ("callback", callback);
        ("success", VBool success); ("result", result)].

(** [onCall(ns, str)]: the instance afterwards, and what the call did:
    [Normal None] when it returned without publishing, [Normal (Some p)]
    when it published [p], [Throw e] when the promise of the async
    function rejected with [e]. *)
Definition onCall (self : t) (ns str : string)
  : t * completion (option publication) :=
  let segs := split "/" ns in
  let _remotify := segs !! 1%nat in
  let _serverid := segs !! 2%nat in
  let _call := segs !! 3%nat in
  let fnname := segs !! 4%nat in
  if negb (seg_is _remotify "remotify") then (self, Normal None)
  else if negb (seg_is _serverid (serverid self)) then (self, Normal None)
  else if negb (seg_is _call "call") then (self, Normal None)
  else
    let fn := fnname ≫= (fun k => fns self !! k) in
    (self,
     data ← JSON_parse_c str;
     callback ←
       match fn with
       | None =>
           cb ← get_prop data "callback";
           Normal (Callback ns cb false
                     (VStr ("unknown function " +:+ quoted (seg_string fnname))))
       | Some fn =>
           match (cb ← get_prop data "callback";
                  arguments ← get_prop data "arguments";
                  args ← spread arguments;
                  result ← fn args;
                  Normal (Callback ns cb true result)) with
           | Normal callback => Normal callback
           | Throw result =>
               cb ← get_prop data "callback";
               Normal (Callback ns cb false result)
           end
       end;
     clientid ← get_prop data "clientid";
     let callbackPath := callback_topic (serverid self) (to_string clientid) in
     Normal (Some (callbackPath,
                   JSON_stringify (config_jsonReplacer self) callback))).

(** [listen(fn, fnname)] on a function value; [fnname] is [fn.name] when
    the argument is left out. *)
Definition listen_function (fn : func) (fnname : option string) (self : t) : t :=
  listen (fn_call fn) (default (fn_name fn) fnname) self.



End Listen.

(** ** The calling side *)

Inductive promise (A : Type) : Type :=
| Pending
| Fulfilled (a : A)
| Rejected (e : value).
Arguments Pending {A}.
Arguments Fulfilled {A} a.
Arguments Rejected {A} e.

(** Resolving or rejecting a promise that is already settled does nothing. *)
Definition settle {A : Type} (p new : promise A) : promise A :=
  match p with
  | Pending => new
  | _ => p
  end.

(** What [Promise.race] of the reply and the timer settles with: the array
    of [Promise.all], or the symbol [timedout]. *)
Inductive raced : Type :=
| Replied (results : value)
| timedout.

(** The entry of the callback registry for a call: the pair of closures
    [addCallback] builds, which delete the entry of [id] and settle the
    promise of [id]. *)
Record PendingCall : Type := { pc_id : Z }.

(** One activation of the async function [remotify] returns. *)
Record Call : Type := {
  c_fnname : string;
  c_args : list value;
  (** [promise] of [addCallback] *)
  c_promise : promise value;
  (** [isDown] *)
  c_isDown : promise value;
  (** [Promise.all([isDown, promise])] *)
  c_all : promise value;
  (** [sleep(callbackTimeout).then(() => timedout)] *)
  c_sleep : promise raced;
  (** [Promise.race([...])] *)
  c_race : promise raced;
  (** the promise the caller of the stub holds *)
  c_result : promise value;
}.

Definition timeout_rejection (fnname : string) (args : list value) : value :=
  VObj [("cause", VStr "timeout"); ("fnname", VStr fnname);
        ("args", VArr args); ("message", VStr "Timeout")].

(** [new Error(serverid + " backend is down or method does not exist")]
    with [cause] assigned. *)
Definition backend_down_error (serverid : string) : value :=
  let message := serverid +:+ " backend is down or method does not exist" in
  VError message (Some ("Error: " +:+ message)) "Error"
    [("cause", VStr "remotifyBackendDown")].

(** [a[i]] on what [Promise.all] fulfilled with. *)
Definition index (a : value) (i : nat) : value :=
  match a with
  | VArr items => default VUndefined (items !! i)
  | _ => VUndefined
  end.

Module Remotify.

Record t : Type := {
  serverid : string;
  config_clientid : string;
  config_callbackTimeout : Z;
  callbacks : gmap Z PendingCall;
  cbCounter : Z;
  (** the activations of the stubs, by the id each allocated *)
  calls : gmap Z Call;
}.

Definition with_callbacks (cbs : gmap Z PendingCall) (self : t) : t :=
  {| serverid := serverid self; config_clientid := config_clientid self;
     config_callbackTimeout := config_callbackTimeout self;
     callbacks := cbs; cbCounter := cbCounter self; calls := calls self |}.

Definition with_calls (cs : gmap Z Call) (self : t) : t :=
  {| serverid := serverid self; config_clientid := config_clientid self;
     config_callbackTimeout := config_callbackTimeout self;
     callbacks := callbacks self; cbCounter := cbCounter self; calls := cs |}.

(** [new Remotify(serverid, clients, config)]; [suffix] is what
    [randomid()] returned. *)
Definition new (serverid clientid : string) (callbackTimeout : Z)
    (suffix : string) : t :=
  {| serverid := serverid;
     config_clientid := clientid +:+ "_" +:+ suffix;
     config_callbackTimeout := callbackTimeout;
     callbacks := ∅; cbCounter := 0; calls := ∅ |}.

Definition defaultConfig_clientid : string := "unnamed".
Definition defaultConfig_callbackTimeout : Z := 60 * 1000.

(** The topic the constructor subscribes to. *)
Definition subscription (self : t) : string :=
  callback_topic (serverid self) (config_clientid self).

(** The reactions of one activation, run to quiescence: [Promise.all],
    [Promise.race], and the code after the [await]. *)
Definition all_of (c : Call) : promise value :=
  match c_all c with
  | Pending =>
      match c_isDown c, c_promise c with
      | Rejected e, _ => Rejected e
      | _, Rejected e => Rejected e
      | Fulfilled a, Fulfilled b => Fulfilled (VArr [a; b])
      | _, _ => Pending
      end
  | p => p
  end.

Definition race_of (c : Call) : promise raced :=
  match c_race c with
  | Pending =>
      match c_all c, c_sleep c with
      | Fulfilled v, _ => Fulfilled (Replied v)
      | Rejected e, _ => Rejected e
      | Pending, Fulfilled r => Fulfilled r
      | Pending, Rejected e => Rejected e
      | Pending, Pending => Pending
      end
  | p => p
  end.

Definition set_all (c : Call) (p : promise value) : Call :=
  {| c_fnname := c_fnname c; c_args := c_args c; c_promise := c_promise c;
     c_isDown := c_isDown c; c_all := p; c_sleep := c_sleep c;
     c_race := c_race c; c_result := c_result c |}.

Definition set_race (c : Call) (p : promise raced) : Call :=
  {| c_fnname := c_fnname c; c_args := c_args c; c_promise := c_promise c;
     c_isDown := c_isDown c; c_all := c_all c; c_sleep := c_sleep c;
     c_race := p; c_result := c_result c |}.

Definition set_result (c : Call) (p : promise value) : Call :=
  {| c_fnname := c_fnname c; c_args := c_args c; c_promise := c_promise c;
     c_isDown := c_isDown c; c_all := c_all c; c_sleep := c_sleep c;
     c_race := c_race c; c_result := p |}.

Definition set_promise (c : Call) (p : promise value) : Call :=
  {| c_fnname := c_fnname c; c_args := c_args c; c_promise := p;
     c_isDown := c_isDown c; c_all := c_all c; c_sleep := c_sleep c;
     c_race := c_race c; c_result := c_result c |}.

Definition set_isDown (c : Call) (p : promise value) : Call :=
  {| c_fnname := c_fnname c; c_args := c_args c; c_promise := c_promise c;
     c_isDown := p; c_all := c_all c; c_sleep := c_sleep c;
     c_race := c_race c; c_result := c_result c |}.

Definition set_sleep (c : Call) (p : promise raced) : Call :=
  {| c_fnname := c_fnname c; c_args := c_args c; c_promise := c_promise c;
     c_isDown := c_isDown c; c_all := c_all c; c_sleep := p;
     c_race := c_race c; c_result := c_result c |}.

(** The code of the stub after [await Promise.race(...)], run when the
    race has settled and the stub has not returned yet. *)
Definition resume (id : Z) (c : Call) (self : t) : t :=
  match c_result c, c_race c with
  | Pending, Rejected e =>
      with_calls (<[id := set_result c (Rejected e)]> (calls self)) self
  | Pending, Fulfilled timedout =>
      let self :=
        match callbacks self !! id with
        | Some _ => with_callbacks (delete id (callbacks self)) self
        | None => self
        end in
      with_calls
        (<[id := set_result c
                   (Rejected (timeout_rejection (c_fnname c) (c_args c)))]>
           (calls self)) self
  | Pending, Fulfilled (Replied result) =>
      with_calls
        (<[id := set_result c (Fulfilled (index result 1))]> (calls self)) self
  | _, _ => with_calls (<[id := c]> (calls self)) self
  end.

Definition react (id : Z) (self : t) : t :=
  match calls self !! id with
  | Some c =>
      let c := set_all c (all_of c) in
      let c := set_race c (race_of c) in
      resume id c self
  | None => self
  end.

(** Settling one of the promises of activation [id], then running the
    reactions. *)
Definition update (id : Z) (f : Call -> Call) (self : t) : t :=
  react id (with_calls (alter f id (calls self)) self).

(** [addCallback()]: the id, and the instance with the entry stored. *)
Definition addCallback (self : t) : Z * t :=
  let id := cbCounter self + 1 in
  (id,
   {| serverid := serverid self; config_clientid := config_clientid self;
      config_callbackTimeout := config_callbackTimeout self;
      callbacks := <[id := {| pc_id := id |}]> (callbacks self);
      cbCounter := id; calls := calls self |}).

(** The closures stored by [addCallback]. *)
Definition cb_resolve (cb : PendingCall) (result : value) (self : t) : t :=
  let self := with_callbacks (delete (pc_id cb) (callbacks self)) self in
  update (pc_id cb)
    (fun c => set_promise c (settle (c_promise c) (Fulfilled result))) self.

Definition cb_reject (cb : PendingCall) (result : value) (self : t) : t :=
  let self := with_callbacks (delete (pc_id cb) (callbacks self)) self in
  update (pc_id cb)
    (fun c => set_promise c (settle (c_promise c) (Rejected result))) self.

(** [this.callbacks.get(key)]: the keys stored are numbers. *)
Definition callbacks_get (self : t) (key : value) : option PendingCall :=
  match key with
  | VNum n => callbacks self !! n
  | _ => None
  end.

(** [onCallback(ns, str)]: the instance afterwards, and whether the
    handler returned or threw. *)
Definition onCallback (self : t) (ns str : string) : t * completion unit :=
  let segs := split "/" ns in
  let _remotify := segs !! 1%nat in
  let _ns := segs !! 2%nat in
  let _callback := segs !! 3%nat in
  if negb (seg_is _remotify "remotify") then (self, Normal tt)
  else if negb (seg_is _ns (serverid self)) then (self, Normal tt)
  else if negb (seg_is _callback "callback") then (self, Normal tt)
  else
    match JSON_parse_c str with
    | Throw e => (self, Throw e)
    | Normal data =>
        match get_prop data "callback" with
        | Throw e => (self, Throw e)
        | Normal key =>
            match callbacks_get self key with
            | Some cb =>
                match (success ← get_prop data "success";
                       result ← get_prop data "result";
                       Normal (success, result)) with
                | Throw e => (self, Throw e)
                | Normal (success, result) =>
                    ((if truthy success then cb_resolve else cb_reject)
                       cb result self, Normal tt)
                end
            | None => (self, Normal tt)
            end
        end
    end.

Definition Call_message (clientid : string) (id : Z) (args : list value)
  : value :=
  VObj [("clientid", VStr clientid); ("callback", VNum id);
        ("arguments", VArr args)].

(** Calling the stub [remotify(fnname)] with [args], up to its [await]:
    the id allocated, the instance with the activation recorded, and the
    message handed to [publish]. *)
Definition remotify (fnname : string) (args : list value) (self : t)
  : Z * t * publication :=
  let '(id, self) := addCallback self in
  let data := Call_message (config_clientid self) id args in
  let c := {| c_fnname := fnname; c_args := args; c_promise := Pending;
              c_isDown := Pending; c_all := Pending; c_sleep := Pending;
              c_race := Pending; c_result := Pending |} in
  (id, with_calls (<[id := c]> (calls self)) self,
   (call_topic (serverid self) fnname, JSON_stringify no_replacer data)).

(** What the scheduler can run next on this instance. *)
Inductive event : Type :=
(** the promise of [publish] of call [id] fulfilled with [listenedCount] *)
| Published (id : Z) (listenedCount : Z)
(** the promise of [publish] of call [id] rejected *)
| PublishFailed (id : Z) (err : value)
(** [subClient] emitted ['message'] *)
| Message (ns str : string)
(** [sleep(callbackTimeout)] of call [id] elapsed *)
| TimerFired (id : Z).

(** The [then] and [catch] attached to [publish], which settle [isDown]. *)
Definition on_published (id : Z) (listenedCount : Z) (self : t) : t :=
  update id
    (fun c =>
       set_isDown c
         (settle (c_isDown c)
            (if listenedCount =? 0
             then Rejected (backend_down_error (serverid self))
             else Fulfilled VUndefined))) self.

Definition on_publish_failed (id : Z) (err : value) (self : t) : t :=
  update id (fun c => set_isDown c (settle (c_isDown c) (Rejected err))) self.

Definition on_timer (id : Z) (self : t) : t :=
  update id (fun c => set_sleep c (settle (c_sleep c) (Fulfilled timedout))) self.

Definition step (self : t) (ev : event) : t * completion unit :=
  match ev with
  | Published id n => (on_published id n self, Normal tt)
  | PublishFailed id err => (on_publish_failed id err self, Normal tt)
  | Message ns str => onCallback self ns str
  | TimerFired id => (on_timer id self, Normal tt)
  end.

(** What happens to an instance: a stub is called, or the scheduler runs
    an event. *)
Inductive action : Type :=
| Invoke (fnname : string) (args : list value)
| Occur (ev : event).

(** An exception thrown by a handler is left to the emitter, and the
    instance goes on from the state the handler left. *)
Definition perform (self : t) (a : action) : t :=
  match a with
  | Invoke fnname args => snd (fst (remotify fnname args self))
  | Occur ev => fst (step self ev)
  end.

Definition exec (self : t) (acts : list action) : t :=
  fold_left perform acts self.


(** The correlation id a payload carries, if it parses. *)
Definition payload_callback (str : string) : option value :=
  match JSON_parse str with
  | Some data =>
      match get_prop data "callback" with
      | Normal key => Some key
      | Throw _ => None
      end
  | None => None
  end.

(** Whether an action is about call [id]: a report of its publish, its
    timer, or a message that carries its id. *)
Definition concerns (id : Z) (a : action) : bool :=
  match a with
  | Invoke _ _ => false
  | Occur (Published i _) | Occur (PublishFailed i _) | Occur (TimerFired i) =>
      i =? id
  | Occur (Message _ str) =>
      match payload_callback str with
      | Some (VNum n) => n =? id
      | _ => false
      end
  end.

(** Whether an action is the report of the publish of call [id]. *)
Definition reports (id : Z) (a : action) : bool :=
  match a with
  | Occur (Published i _) | Occur (PublishFailed i _) => i =? id
  | _ => false
  end.

(** The state of the promise the caller of the stub holds. *)
Definition result_of (self : t) (id : Z) : option (promise value) :=
  c_result <$> calls self !! id.

End Remotify.

(** ** The event channel *)

(** [Object.getOwnPropertyNames(Object.prototype)]: the members every
    object inherits. *)
Definition Object_prototype_names : list string :=
  ["constructor"; "__defineGetter__"; "__defineSetter__"; "hasOwnProperty";
   "__lookupGetter__"; "__lookupSetter__"; "isPrototypeOf";
   "propertyIsEnumerable"; "toString"; "valueOf"; "__proto__";
   "toLocaleString"].


Module RedisEventSubscriber.

Record t : Type := {
  ns : string;
  (** the own properties of [listener] *)
  listener : list string;
}.

(** [event in this.listener]: own or inherited. *)
Definition has (self : t) (event : string) : bool :=
  existsb (String.eqb event) (listener self)
  || existsb (String.eqb event) Object_prototype_names.

(** [onEvent(ns, dataStr)]: the instance afterwards and, when a member of
    [listener] was called, its name and argument. *)
Definition onEvent (self : t) (topic dataStr : string)
  : t * completion (option (string * value)) :=
  let segs := split "/" topic in
  let _remotifyEvent := segs !! 1%nat in
  let _ns := segs !! 2%nat in
  if negb (seg_is _remotifyEvent "remotifyEvent") then (self, Normal None)
  else if negb (seg_is _ns (ns self)) then (self, Normal None)
  else
    (self,
     parsed ← JSON_parse_c dataStr;
     event ← get_prop parsed "event";
     data ← get_prop parsed "data";
     if has self (to_string event)
     then Normal (Some (to_string event, data))
     else Normal None).

End RedisEventSubscriber.

Module RedisEventPublisher.

Record t : Type := { ns : string }.


End RedisEventPublisher.

(** ** Stubs for many functions *)













(** ** Identities *)

(** [buffer.toString("hex")]: two lower-case digits for each byte. *)
Fixpoint to_hex (buffer : list ascii) : string :=
  match buffer with
  | [] => EmptyString
  | b :: r =>
      String (hex_digit (N_of_ascii b / 16))
        (String (hex_digit (N_of_ascii b mod 16)) (to_hex r))
  end.

(** [randomid()], from the bytes [crypto.randomBytes(10)] returned. *)
Definition randomid (randomBytes : list ascii) : string := to_hex randomBytes.

(** ** Predicates used by the statements *)

Definition nodup_keys (l : list (string * value)) : bool :=
  (fix go (l : list (string * value)) : bool :=
     match l with
     | [] => true
     | (k, _) :: r => negb (obj_has k r) && go r
     end) l.

(** The values JSON carries unchanged: no [undefined], no [Error], no
    repeated key, at any depth. *)
Fixpoint serializable (v : value) : bool :=
  match v with
  | VNull | VBool _ | VNum _ | VStr _ => true
  | VArr items => forallb serializable items
  | VObj fields =>
      nodup_keys fields && forallb (fun kv => serializable (snd kv)) fields
  | VUndefined | VError _ _ _ _ => false
  end.

(** The text [JSON.stringify] writes for a serializable value. *)
Fixpoint render (v : value) : text :=
  match v with
  | VNull => lit "null"
  | VBool true => lit "true"
  | VBool false => lit "false"
  | VNum n => show_Z n
  | VStr s => quote s
  | VArr items => "["%char :: join_comma (map render items) ++ ["]"%char]
  | VObj fields =>
      "{"%char ::
        join_comma (map (fun kv => quote (fst kv) ++ ":"%char :: render (snd kv))
                      fields) ++ ["}"%char]
  | VUndefined | VError _ _ _ _ => []
  end.

(** What the reply carries unchanged as [result]: [undefined] (the property
    is then left out and read back as [undefined]) or a serializable
    value. *)
Definition transmissible (v : value) : bool :=
  match v with
  | VUndefined => true
  | _ => serializable v
  end.

Definition is_Error (v : value) : bool :=
  match v with
  | VError _ _ _ _ => true
  | _ => false
  end.

(** No ["/"] in a string: it is one segment of a topic. *)
Fixpoint slash_free (s : string) : bool :=
  match s with
  | EmptyString => true
  | String c r => negb (Ascii.eqb c "/"%char) && slash_free r
  end.

(** ** Vocabulary of the proofs *)

Import Remotify.

(** *** The codec *)

Definition no_digit_ahead (t : text) : Prop :=
  match t with
  | c :: _ => is_digit c = false
  | [] => True
  end.

(** The first character of a value's text opens a value: it is neither
    white space nor a closing bracket. *)
Definition opens_value (c : ascii) : bool :=
  is_digit c
  || existsb (Ascii.eqb c)
       ["-"%char; dquote; "["%char; "{"%char; "n"%char; "t"%char; "f"%char].

Definition parses (v : value) : Prop :=
  serializable v = true ->
  forall fuel t,
    (List.length (render v) < fuel)%nat ->
    no_digit_ahead t ->
    parse_value fuel (render v ++ t) = Some (v, t).

Definition member_text (kv : string * value) : text :=
  quote (fst kv) ++ ":"%char :: render (snd kv).

Definition keeps_data (replacer : string -> value -> value) : Prop :=
  forall k v, serializable v = true -> replacer k v = v.

Definition writes (replacer : string -> value -> value) (v : value) : Prop :=
  serializable v = true ->
  forall fuel k,
    (height v <= fuel)%nat ->
    SerializeJSONProperty fuel replacer k v = Some (render v).

(** *** One call *)

(** The activation after its reactions have run. *)
Definition reacted (c : Call) : Call :=
  let c := set_all c (all_of c) in
  set_race c (race_of c).

Definition result_after (c : Call) : promise value :=
  match c_result c, c_race c with
  | Pending, Rejected e => Rejected e
  | Pending, Fulfilled timedout =>
      Rejected (timeout_rejection (c_fnname c) (c_args c))
  | Pending, Fulfilled (Replied result) => Fulfilled (index result 1)
  | p, _ => p
  end.

Definition finish (c : Call) : Call :=
  set_result (reacted c) (result_after (reacted c)).

(** Whether the code after the [await] takes the timeout branch. *)
Definition times_out (c : Call) : bool :=
  match c_result c, c_race c with
  | Pending, Fulfilled timedout => true
  | _, _ => false
  end.

Definition call_inv (c : Call) : Prop :=
  (c_result c = Pending -> c_race c = Pending)
  /\ (c_race c = Pending ->
      c_result c = Pending /\ c_all c = Pending /\ c_sleep c = Pending)
  /\ (c_all c = Pending -> all_of c = Pending).

Record Inv (st : Remotify.t) : Prop := {
  inv_calls :
    forall id c, calls st !! id = Some c ->
                 0 < id <= cbCounter st /\ call_inv c;
  inv_callbacks :
    forall id pc, callbacks st !! id = Some pc ->
                  pc_id pc = id
                  /\ exists c, calls st !! id = Some c /\ c_promise c = Pending;
  inv_counter : 0 <= cbCounter st;
}.

(** A function that settles inputs of an activation and nothing else. *)
Definition settler (f : Call -> Call) : Prop :=
  forall c, c_fnname (f c) = c_fnname c /\ c_args (f c) = c_args c
            /\ c_all (f c) = c_all c /\ c_race (f c) = c_race c
            /\ c_result (f c) = c_result c.

Inductive shape (st : Remotify.t) (a : action) : Remotify.t -> Prop :=
| shape_same : shape st a st
| shape_update i f st0 :
    st0 = st \/ st0 = with_callbacks (delete i (callbacks st)) st ->
    settler f -> concerns i a = true ->
    (reports i a = false -> forall c, c_isDown (f c) = c_isDown c) ->
    shape st a (update i f st0)
| shape_invoke fnname args :
    a = Invoke fnname args ->
    shape st a (snd (fst (remotify fnname args st))).

Definition outcome_flag (o : completion value) : bool :=
  match o with Normal _ => true | Throw _ => false end.

Definition outcome_value (o : completion value) : value :=
  match o with Normal v => v | Throw e => e end.

(** The activation a stub starts with. *)
Definition fresh_call (fnname : string) (args : list value) : Call :=
  {| c_fnname := fnname; c_args := args; c_promise := Pending;
     c_isDown := Pending; c_all := Pending; c_sleep := Pending;
     c_race := Pending; c_result := Pending |}.

(** The state of one call, as the proofs follow it. *)
Record tracks (st : Remotify.t) (id : Z) (c : Call) (cb : option PendingCall)
  : Prop := {
  tr_inv : Inv st;
  tr_call : calls st !! id = Some c;
  tr_cb : callbacks st !! id = cb;
}.


(** *** Induction on values

    The induction principle that reaches the values inside arrays, objects
    and errors. *)

Section ValueInd.
Variable P : value -> Prop.
Hypothesis Hundef : P VUndefined.
Hypothesis Hnull : P VNull.
Hypothesis Hbool : forall b, P (VBool b).
Hypothesis Hnum : forall n, P (VNum n).
Hypothesis Hstr : forall s, P (VStr s).
Hypothesis Harr : forall items, Forall P items -> P (VArr items).
Hypothesis Hobj :
  forall fields, Forall (fun kv => P (snd kv)) fields -> P (VObj fields).
Hypothesis Herr :
  forall m s n props,
    Forall (fun kv => P (snd kv)) props -> P (VError m s n props).

Fixpoint value_nested_ind (v : value) : P v :=
  let fix items_ind (l : list value) : Forall P l :=
    match l with
    | [] => List.Forall_nil P
    | x :: r => @List.Forall_cons _ P x r (value_nested_ind x) (items_ind r)
    end in
  let fix fields_ind (l : list (string * value))
    : Forall (fun kv => P (snd kv)) l :=
    match l with
    | [] => List.Forall_nil _
    | kv :: r =>
        @List.Forall_cons _ (fun kv => P (snd kv)) kv r
          (value_nested_ind (snd kv)) (fields_ind r)
    end in
  match v with
  | VUndefined => Hundef
  | VNull => Hnull
  | VBool b => Hbool b
  | VNum n => Hnum n
  | VStr s => Hstr s
  | VArr items => Harr items (items_ind items)
  | VObj fields => Hobj fields (fields_ind fields)
  | VError m s n props => Herr m s n props (fields_ind props)
  end.
End ValueInd.

(** *** Tactics *)


Ltac case_negated_guards :=
  repeat match goal with
         | |- context [if negb ?b then _ else _] =>
             destruct b; cbn [negb]; try reflexivity
         end.

(** *** Examples *)

(** A sample handler: [Squarer.square] of the repository's example, on an
    integer argument. *)
Definition square : handler :=
  fun args =>
    match args with
    | VNum x :: _ => Normal (VNum (x * x))
    | _ => Throw (TypeError "not a number")
    end.

Definition example_listener : Listen.t :=
  Listen.listen square "Squarer.square" (Listen.new "backend").

Definition example_caller : Remotify.t :=
  new "backend" defaultConfig_clientid defaultConfig_callbackTimeout "0a".

Definition example_call : Z * Remotify.t * publication :=
  remotify "Squarer.square" [VNum 5] example_caller.




Definition example_subscriber : RedisEventSubscriber.t :=
  {| RedisEventSubscriber.ns := "news";
     RedisEventSubscriber.listener := ["created"] |}.

(** *** Objects *)

(** The object is below [Object.prototype]: its chain of prototypes leads
    there. *)
Fixpoint below_Object_prototype (o : object) : bool :=
  match o with
  | Object_create proto _ =>
      match proto with
      | Object_prototype _ => true
      | _ => below_Object_prototype proto
      end
  | _ => false
  end.

(** [k] is an own property of the object or of one of its prototypes below
    [Object.prototype]. *)
Fixpoint defined_below (o : object) (k : string) : bool :=
  match o with
  | Object_create proto own =>
      existsb (String.eqb k) (map fst own) || defined_below proto k
  | _ => false
  end.

(** The number of objects of the chain, below [Object.prototype], that have
    [k] as an own property. *)
Fixpoint occurrences_below (o : object) (k : string) : nat :=
  match o with
  | Object_create proto own =>
      (count_occ String.string_dec (map fst own) k + occurrences_below proto k)%nat
  | _ => 0%nat
  end.

(** *** Values on the wire *)

(** The members [JSON.stringify] writes: those that are not [undefined]. *)
Section Wire.
Variable wire : value -> value.

Fixpoint wire_members (l : list (string * value)) : list (string * value) :=
  match l with
  | [] => []
  | (k, VUndefined) :: r => wire_members r
  | (k, x) :: r => (k, wire x) :: wire_members r
  end.
End Wire.

(** What [JSON.parse] reads back from what [JSON.stringify], called
    without a replacer, wrote for a value inside an array: [undefined]
    became [null], a property that is [undefined] was left out, and an
    [Error] was written as the object of its enumerable properties. *)
Fixpoint wire (v : value) : value :=
  match v with
  | VUndefined => VNull
  | VArr items => VArr (map wire items)
  | VObj fields | VError _ _ _ fields => VObj (wire_members wire fields)
  | _ => v
  end.


Definition is_undefined (v : value) : bool :=
  match v with VUndefined => true | _ => false end.


(** What [JSON.parse] reads back from what [JSON.stringify], called with
    [jsonReplacer], wrote for a value inside an array: as for [wire], but an
    [Error], at any depth, was written as the record [jsonReplacer] makes
    of it, the members of the record written in turn. *)
Fixpoint reply_image (v : value) : value :=
  match v with
  | VUndefined => VNull
  | VArr items => VArr (map reply_image items)
  | VObj fields => VObj (wire_members reply_image fields)
  | VError message stack name props =>
      VObj (wire_members (fun x => x)
              (fold_left (fun obj kv => obj_set obj (fst kv) (snd kv))
                 (map (fun kv =>
                         (fst kv,
                          if is_undefined (snd kv) then VUndefined
                          else reply_image (snd kv))) props)
                 [("message", VStr message); ("stack", opt_str stack);
                  ("name", VStr name)]))
  | _ => v
  end.







(** *** Calls side by side *)


(** The call still awaits its reply: none was accepted, and the branch of
    the timeout has not run. *)
Definition awaited (c : Call) : bool :=
  match c_promise c, c_race c with
  | Pending, Fulfilled timedout => false
  | Pending, _ => true
  | _, _ => false
  end.

(** The registry holds the calls that await their reply, and no other. *)
Definition registry_exact (st : Remotify.t) : Prop :=
  forall id c,
    calls st !! id = Some c ->
    callbacks st !! id = if awaited c then Some {| pc_id := id |} else None.

(** A message that [onCallback] of an instance of [sid] takes as the reply
    to call [id]: its topic passes the three guards, and its payload carries
    [id], a [success] of truthiness [ok], and the result [v]. *)
Definition accepted_reply (sid : string) (id : Z) (ok : bool) (v : value)
    (a : action) : Prop :=
  exists ns str data success,
    a = Occur (Message ns str)
    /\ seg_is (split "/" ns !! 1%nat) "remotify" = true
    /\ seg_is (split "/" ns !! 2%nat) sid = true
    /\ seg_is (split "/" ns !! 3%nat) "callback" = true
    /\ JSON_parse str = Some data
    /\ get_prop data "callback" = Normal (VNum id)
    /\ get_prop data "success" = Normal success
    /\ truthy success = ok
    /\ get_prop data "result" = Normal v.

(** The settled promises of a call are grounded in those they react to. *)
Record grounded (c : Call) : Prop := {
  gr_all_fulfilled :
    forall v, c_all c = Fulfilled v ->
              exists a b, v = VArr [a; b]
                          /\ c_isDown c = Fulfilled a
                          /\ c_promise c = Fulfilled b;
  gr_all_rejected :
    forall e, c_all c = Rejected e ->
              c_isDown c = Rejected e \/ c_promise c = Rejected e;
  gr_sleep :
    c_sleep c = Pending \/ c_sleep c = Fulfilled timedout;
  gr_race_replied :
    forall v, c_race c = Fulfilled (Replied v) -> c_all c = Fulfilled v;
  gr_race_timedout :
    c_race c = Fulfilled timedout -> c_sleep c = Fulfilled timedout;
  gr_race_rejected :
    forall e, c_race c = Rejected e -> c_all c = Rejected e;
  gr_result_fulfilled :
    forall v, c_result c = Fulfilled v ->
              exists w, c_race c = Fulfilled (Replied w) /\ v = index w 1;
  gr_result_rejected :
    forall e, c_result c = Rejected e ->
              c_race c = Rejected e
              \/ (c_race c = Fulfilled timedout
                  /\ e = timeout_rejection (c_fnname c) (c_args c));
}.

(** What is settled in call [id] of an instance of [sid] is owed to an
    action of [past]. *)
Record answered (sid : string) (id : Z) (past : list action) (c : Call)
  : Prop := {
  an_grounded : grounded c;
  an_promise_fulfilled :
    forall v, c_promise c = Fulfilled v ->
              exists a, In a past /\ accepted_reply sid id true v a;
  an_promise_rejected :
    forall e, c_promise c = Rejected e ->
              exists a, In a past /\ accepted_reply sid id false e a;
  an_isDown_fulfilled :
    forall x, c_isDown c = Fulfilled x ->
              exists k, k <> 0 /\ In (Occur (Published id k)) past;
  an_isDown_rejected :
    forall e, c_isDown c = Rejected e ->
              (e = backend_down_error sid /\ In (Occur (Published id 0)) past)
              \/ In (Occur (PublishFailed id e)) past;
  an_sleep :
    c_sleep c = Fulfilled timedout -> In (Occur (TimerFired id)) past;
}.

Definition owed (id : Z) (past : list action) (st : Remotify.t) : Prop :=
  forall c, calls st !! id = Some c -> answered (serverid st) id past c.

(** *** Examples of objects and results *)

(** An [Object.prototype] for the examples.  Its members are functions of
    the engine; the examples read [constructor] and call none of them. *)
Definition example_Object_prototype : object :=
  Object_prototype
    [("constructor",
      Method {| fn_name := "Object"; fn_call := fun _ => Normal (VObj []) |})].

(** The class [Squarer] of the repository's example, and an instance. *)
Definition Squarer : class :=
  {| cls_name := "Squarer";
     cls_prototype :=
       Object_create example_Object_prototype
         [("constructor",
           Method {| fn_name := "Squarer";
                     fn_call := fun _ =>
                       Throw (TypeError "Class constructor cannot be invoked without new") |});
          ("square", Method {| fn_name := "square"; fn_call := square |})] |}.

Definition squarer : object := Object_create (cls_prototype Squarer) [].







(** * Proofs *)

(** ** The JSON codec *)

(** *** Numbers *)

Lemma read_uint_stop t : no_digit_ahead t -> read_uint t = (Nil, t).
Proof.
  destruct t as [|c r]; simpl; [reflexivity|].
  unfold is_digit. destruct (digit_of c); [discriminate|reflexivity].
Qed.

Lemma read_uint_show (d : uint) (t : text) :
  no_digit_ahead t ->
  read_uint (list_ascii_of_string (NilEmpty.string_of_uint d) ++ t) = (d, t).
Proof.
  intros Ht. induction d; simpl; rewrite ?IHd; auto using read_uint_stop.
Qed.

Lemma uint_beq_refl (d : uint) : Decimal.uint_beq d d = true.
Proof. induction d; simpl; auto. Qed.

Lemma to_uint_normal (n : N) : unorm (N.to_uint n) = N.to_uint n.
Proof.
  rewrite <- (Unsigned.of_to n) at 2. now rewrite Unsigned.to_of.
Qed.

Lemma parse_N_show (n : N) (t : text) :
  no_digit_ahead t -> parse_N (show_N n ++ t) = Some (n, t).
Proof.
  intros Ht. unfold parse_N, show_N. rewrite read_uint_show by assumption.
  rewrite to_uint_normal, uint_beq_refl, Unsigned.of_to. reflexivity.
Qed.

Lemma show_uint_head (d : uint) :
  d <> Nil ->
  exists c r, list_ascii_of_string (NilEmpty.string_of_uint d) = c :: r
              /\ is_digit c = true.
Proof.
  destruct d; [congruence| ..]; intros _; simpl; eauto.
Qed.

Lemma show_N_head (n : N) :
  exists c r, show_N n = c :: r /\ is_digit c = true.
Proof.
  apply show_uint_head. rewrite <- to_uint_normal. apply unorm_nonnil.
Qed.

Lemma is_digit_not_minus c : is_digit c = true -> Ascii.eqb c "-"%char = false.
Proof.
  destruct c as [[] [] [] [] [] [] [] []]; cbv; congruence.
Qed.

Lemma parse_number_show (z : Z) (t : text) :
  no_digit_ahead t -> parse_number (show_Z z ++ t) = Some (z, t).
Proof.
  intros Ht. unfold show_Z. destruct (Z.ltb_spec z 0).
  - simpl. rewrite parse_N_show by assumption.
    f_equal. f_equal. lia.
  - destruct (show_N_head (Z.to_N z)) as (c & r & E & Hc).
    unfold parse_number. rewrite E. simpl. rewrite (is_digit_not_minus c Hc).
    change (c :: r ++ t) with ((c :: r) ++ t). rewrite <- E.
    rewrite parse_N_show by assumption. f_equal. f_equal. lia.
Qed.

Lemma show_Z_head (z : Z) :
  exists c r, show_Z z = c :: r /\ (is_digit c || Ascii.eqb c "-"%char) = true.
Proof.
  unfold show_Z. destruct (z <? 0).
  - eexists _, _. split; [reflexivity|]. reflexivity.
  - destruct (show_N_head (Z.to_N z)) as (c & r & E & Hc).
    exists c, r. split; [assumption|]. now rewrite Hc.
Qed.

(** *** Strings *)

Lemma parse_escape_char (c : ascii) (t : text) :
  parse_string_body (escape_char c ++ t) =
  match parse_string_body t with
  | Some (str, r) => Some (String c str, r)
  | None => None
  end.
Proof.
  destruct c as [[] [] [] [] [] [] [] []]; reflexivity.
Qed.

Lemma parse_string_escape (s : string) (t : text) :
  parse_string_body (escape s ++ dquote :: t) = Some (s, t).
Proof.
  induction s as [|c s IH]; simpl; [reflexivity|].
  rewrite <- app_assoc, parse_escape_char, IH. reflexivity.
Qed.

(** *** Values *)

Lemma parse_value_S fuel s :
  parse_value (S fuel) s =
  match skip_ws s with
  | [] => None
  | c :: r =>
      if is_digit c || Ascii.eqb c "-"%char then
        match parse_number (c :: r) with
        | Some (n, r') => Some (VNum n, r')
        | None => None
        end
      else if Ascii.eqb c dquote then
        match parse_string_body r with
        | Some (str, r') => Some (VStr str, r')
        | None => None
        end
      else if Ascii.eqb c "["%char then
        match skip_ws r with
        | "]"%char :: r' => Some (VArr [], r')
        | _ =>
            match parse_elems fuel r with
            | Some (l, r') => Some (VArr l, r')
            | None => None
            end
        end
      else if Ascii.eqb c "{"%char then
        match skip_ws r with
        | "}"%char :: r' => Some (VObj [], r')
        | _ =>
            match parse_members fuel r with
            | Some (l, r') => Some (VObj (members_object l), r')
            | None => None
            end
        end
      else parse_literal (c :: r)
  end.
Proof. reflexivity. Qed.

Lemma parse_elems_S fuel s :
  parse_elems (S fuel) s =
  match parse_value fuel s with
  | None => None
  | Some (v, r) =>
      match skip_ws r with
      | ","%char :: r' =>
          match parse_elems fuel r' with
          | Some (vs, r'') => Some (v :: vs, r'')
          | None => None
          end
      | "]"%char :: r' => Some ([v], r')
      | _ => None
      end
  end.
Proof. reflexivity. Qed.

Lemma parse_members_S fuel s :
  parse_members (S fuel) s =
  match skip_ws s with
  | [] => None
  | c :: r =>
      if negb (Ascii.eqb c dquote) then None
      else
        match parse_string_body r with
        | None => None
        | Some (k, r1) =>
            match skip_ws r1 with
            | ":"%char :: r2 =>
                match parse_value fuel r2 with
                | None => None
                | Some (v, r3) =>
                    match skip_ws r3 with
                    | ","%char :: r4 =>
                        match parse_members fuel r4 with
                        | Some (kvs, r5) => Some ((k, v) :: kvs, r5)
                        | None => None
                        end
                    | "}"%char :: r4 => Some ([(k, v)], r4)
                    | _ => None
                    end
                end
            | _ => None
            end
        end
  end.
Proof. reflexivity. Qed.

Lemma number_opens c :
  is_digit c || Ascii.eqb c "-"%char = true -> opens_value c = true.
Proof.
  destruct c as [[] [] [] [] [] [] [] []]; cbv; congruence.
Qed.

Lemma render_head (v : value) :
  serializable v = true ->
  exists c r, render v = c :: r /\ opens_value c = true.
Proof.
  destruct v as [| |[]|n|s|items|fields|]; simpl; try discriminate; intros _;
    try (eexists _, _; split; [reflexivity|reflexivity]).
  destruct (show_Z_head n) as (c & r & E & Hc).
  exists c, r. split; [assumption|]. now apply number_opens.
Qed.

Lemma opens_not_ws c r : opens_value c = true -> skip_ws (c :: r) = c :: r.
Proof.
  intros H. simpl.
  replace (is_ws c) with false; [reflexivity|].
  revert H. destruct c as [[] [] [] [] [] [] [] []]; cbv; congruence.
Qed.

Lemma opens_not_bracket {A} c r (X : text -> A) (Y : A) :
  opens_value c = true ->
  match c :: r with
  | "]"%char :: r' => X r'
  | _ => Y
  end = Y.
Proof.
  destruct c as [[] [] [] [] [] [] [] []]; cbv; congruence.
Qed.

Lemma parse_elems_render (l : list value) :
  Forall parses l ->
  forallb serializable l = true ->
  l <> [] ->
  forall fuel t,
    (List.length (join_comma (map render l)) + 2 <= fuel)%nat ->
    parse_elems fuel (join_comma (map render l) ++ "]"%char :: t) = Some (l, t).
Proof.
  induction 1 as [|x l Hx Hl IH]; [congruence|].
  intros Hs _ fuel t Hfuel.
  apply andb_prop in Hs as [Hsx Hsl].
  destruct fuel as [|fuel]; [lia|]. rewrite parse_elems_S.
  destruct l as [|y l].
  - simpl in *. rewrite Hx; [reflexivity | assumption | lia | reflexivity].
  - change (join_comma (map render (x :: y :: l)))
      with (render x ++ ","%char :: join_comma (map render (y :: l))) in *.
    set (J := join_comma (map render (y :: l))) in *.
    rewrite length_app in Hfuel. cbn [List.length] in Hfuel.
    rewrite <- app_assoc. cbn [app].
    rewrite Hx; [ | assumption | lia | reflexivity].
    change (skip_ws (","%char :: ?r)) with (","%char :: r).
    cbv beta iota.
    rewrite IH; [reflexivity | assumption | congruence | lia].
Qed.

Lemma obj_set_fresh (o : list (string * value)) k v :
  obj_has k o = false -> obj_set o k v = o ++ [(k, v)].
Proof.
  induction o as [|[k' v'] o IH]; simpl; [reflexivity|].
  intros H. apply orb_false_elim in H as [H1 H2].
  rewrite H1, IH by assumption. reflexivity.
Qed.

Lemma obj_has_app (o1 o2 : list (string * value)) k :
  obj_has k (o1 ++ o2) = obj_has k o1 || obj_has k o2.
Proof.
  induction o1 as [|[k' v'] o1 IH]; simpl; [reflexivity|].
  now rewrite IH, orb_assoc.
Qed.

Lemma members_object_app (l acc : list (string * value)) :
  nodup_keys l = true ->
  (forall k, obj_has k l = true -> obj_has k acc = false) ->
  fold_left (fun obj kv => obj_set obj (fst kv) (snd kv)) l acc = acc ++ l.
Proof.
  revert acc. induction l as [|[k v] l IH]; intros acc Hnd Hacc; simpl.
  - now rewrite app_nil_r.
  - simpl in Hnd. apply andb_prop in Hnd as [Hk Hnd].
    apply negb_true_iff in Hk.
    rewrite obj_set_fresh.
    + rewrite IH; [now rewrite <- app_assoc | assumption |].
      intros k' Hk'. rewrite obj_has_app. simpl.
      rewrite (Hacc k') by (simpl; rewrite Hk'; apply orb_true_r).
      destruct (String.eqb_spec k k'); [subst; congruence | reflexivity].
    + apply Hacc. simpl. now rewrite String.eqb_refl.
Qed.

Lemma members_object_nodup (l : list (string * value)) :
  nodup_keys l = true -> members_object l = l.
Proof.
  intros H. unfold members_object. now rewrite members_object_app.
Qed.

Lemma parse_members_render (l : list (string * value)) :
  Forall (fun kv => parses (snd kv)) l ->
  forallb (fun kv => serializable (snd kv)) l = true ->
  l <> [] ->
  forall fuel t,
    (List.length (join_comma (map member_text l)) + 2 <= fuel)%nat ->
    parse_members fuel (join_comma (map member_text l) ++ "}"%char :: t)
    = Some (l, t).
Proof.
  induction 1 as [|[k x] l Hx Hl IH]; [congruence|].
  intros Hs _ fuel t Hfuel.
  apply andb_prop in Hs as [Hsx Hsl]. cbn [snd] in *.
  destruct fuel as [|fuel]; [lia|]. rewrite parse_members_S.
  assert (Hk : forall r, member_text (k, x) ++ r
                         = dquote :: escape k ++ dquote :: ":"%char :: render x ++ r).
  { intros r. unfold member_text, quote. cbn [fst snd app].
    rewrite <- !app_assoc. reflexivity. }
  destruct l as [|y l].
  - cbn [map join_comma] in *. rewrite Hk.
    change (skip_ws (dquote :: ?r)) with (dquote :: r). cbv beta iota.
    change (Ascii.eqb dquote dquote) with true. cbn [negb].
    rewrite parse_string_escape.
    change (skip_ws (":"%char :: ?r)) with (":"%char :: r). cbv beta iota.
    assert (List.length (render x) < fuel)%nat.
    { unfold member_text in Hfuel. rewrite ?length_app in Hfuel.
      cbn [List.length snd] in Hfuel. lia. }
    rewrite Hx; [reflexivity | assumption | lia | reflexivity].
  - change (join_comma (map member_text ((k, x) :: y :: l)))
      with (member_text (k, x) ++ ","%char :: join_comma (map member_text (y :: l))) in *.
    set (J := join_comma (map member_text (y :: l))) in *.
    rewrite <- app_assoc, Hk.
    change (skip_ws (dquote :: ?r)) with (dquote :: r). cbv beta iota.
    change (Ascii.eqb dquote dquote) with true. cbn [negb].
    rewrite parse_string_escape.
    change (skip_ws (":"%char :: ?r)) with (":"%char :: r). cbv beta iota.
    assert (List.length (render x) + List.length J + 3 <= fuel)%nat.
    { unfold member_text in Hfuel. rewrite ?length_app in Hfuel.
      cbn [List.length snd] in Hfuel. rewrite ?length_app in Hfuel.
      cbn [List.length] in Hfuel. lia. }
    cbn [app].
    rewrite Hx; [ | assumption | lia | reflexivity].
    change (skip_ws (","%char :: ?r)) with (","%char :: r). cbv beta iota.
    rewrite IH; [reflexivity | assumption | congruence | lia].
Qed.

Lemma array_dispatch {A} (R : text) (X : text -> A) (Y : A) :
  (exists c r, R = c :: r /\ opens_value c = true) ->
  match skip_ws R with
  | "]"%char :: r' => X r'
  | _ => Y
  end = Y.
Proof.
  intros (c & r & -> & H). rewrite opens_not_ws by assumption.
  now apply opens_not_bracket.
Qed.

Lemma object_dispatch {A} (r : text) (X : text -> A) (Y : A) :
  match skip_ws (dquote :: r) with
  | "}"%char :: r' => X r'
  | _ => Y
  end = Y.
Proof. reflexivity. Qed.

Lemma join_comma_head (x : text) (l : list text) (t : text) c r :
  x = c :: r -> exists r', join_comma (x :: l) ++ t = c :: r'.
Proof.
  intros ->. destruct l; simpl; eauto.
Qed.

Lemma parse_value_render (v : value) : parses v.
Proof.
  induction v as [| |b|n|s|items IH|fields IH|m s n props IH]
    using value_nested_ind; unfold parses; try discriminate;
    intros Hs fuel t Hfuel Ht; (destruct fuel as [|fuel]; [lia|]);
    rewrite parse_value_S.
  - reflexivity.
  - destruct b; reflexivity.
  - destruct (show_Z_head n) as (c & r & E & Hc).
    cbn [render]. rewrite E. cbn [app].
    rewrite opens_not_ws by (now apply number_opens). rewrite Hc.
    change (c :: r ++ t) with ((c :: r) ++ t). rewrite <- E.
    now rewrite parse_number_show.
  - cbn [render]. unfold quote. cbn [app]. rewrite <- app_assoc. cbn [app].
    change (skip_ws (dquote :: ?r)) with (dquote :: r). cbv beta iota.
    rewrite parse_string_escape. reflexivity.
  - cbn [render serializable] in *. cbn [app]. rewrite <- app_assoc. cbn [app].
    change (skip_ws ("["%char :: ?r)) with ("["%char :: r). cbv beta iota.
    change (is_digit "["%char || Ascii.eqb "["%char "-"%char) with false.
    change (Ascii.eqb "["%char dquote) with false.
    change (Ascii.eqb "["%char "["%char) with true. cbv beta iota.
    destruct items as [|x items]; [reflexivity|].
    rewrite array_dispatch.
    + rewrite parse_elems_render; [reflexivity | assumption | assumption
                                  | congruence | ].
      cbn [List.length] in Hfuel. rewrite length_app in Hfuel.
      cbn [List.length] in Hfuel. lia.
    + cbn [forallb] in Hs. apply andb_prop in Hs as [Hx _].
      destruct (render_head x Hx) as (c & r & E & Hc).
      cbn [map].
      destruct (join_comma_head (render x) (map render items)
                  ("]"%char :: t) c r E) as [r' E'].
      eauto.
  - cbn [render serializable] in *. apply andb_prop in Hs as [Hnd Hs].
    cbn [app]. rewrite <- app_assoc. cbn [app].
    change (skip_ws ("{"%char :: ?r)) with ("{"%char :: r). cbv beta iota.
    change (is_digit "{"%char || Ascii.eqb "{"%char "-"%char) with false.
    change (Ascii.eqb "{"%char dquote) with false.
    change (Ascii.eqb "{"%char "["%char) with false.
    change (Ascii.eqb "{"%char "{"%char) with true. cbv beta iota.
    destruct fields as [|kv fields]; [reflexivity|].
    change (fun kv : string * value => quote (fst kv) ++ ":"%char :: render (snd kv))
      with member_text in *.
    assert (HJ : exists r, join_comma (map member_text (kv :: fields))
                             ++ "}"%char :: t = dquote :: r).
    { destruct kv as [k x]. cbn [map].
      destruct (join_comma_head (member_text (k, x)) (map member_text fields)
                  ("}"%char :: t) dquote
                  (escape k ++ dquote :: ":"%char :: render x)) as [r' E'].
      - unfold member_text, quote. cbn [fst snd app].
        now rewrite <- app_assoc.
      - eauto. }
    destruct HJ as [r HJ].
    rewrite HJ at 1. rewrite object_dispatch.
    rewrite parse_members_render;
      [ now rewrite members_object_nodup | assumption | assumption
      | congruence | ].
    cbn [List.length] in Hfuel. rewrite length_app in Hfuel.
    cbn [List.length] in Hfuel. lia.
Qed.

Lemma list_ascii_of_lit t : list_ascii_of_string (string_of_list_ascii t) = t.
Proof. apply list_ascii_of_string_of_list_ascii. Qed.

(** [JSON.parse] reads back what [render] wrote. *)
Lemma JSON_parse_render (v : value) :
  serializable v = true ->
  JSON_parse (string_of_list_ascii (render v)) = Some v.
Proof.
  intros Hs. unfold JSON_parse. rewrite list_ascii_of_lit.
  rewrite <- (app_nil_r (render v)) at 2.
  rewrite parse_value_render; [reflexivity | assumption | lia | exact I].
Qed.

(** *** Writing *)

Lemma SerializeJSONProperty_S fuel replacer key v :
  SerializeJSONProperty (S fuel) replacer key v =
  let rec := SerializeJSONProperty fuel replacer in
  match replacer key v with
  | VUndefined => None
  | VNull => Some (lit "null")
  | VBool true => Some (lit "true")
  | VBool false => Some (lit "false")
  | VNum n => Some (show_Z n)
  | VStr s => Some (quote s)
  | VArr items =>
      Some ("["%char :: join_comma (ser_elems rec 0 items) ++ ["]"%char])
  | VObj fields | VError _ _ _ fields =>
      Some ("{"%char :: join_comma (ser_members rec fields) ++ ["}"%char])
  end.
Proof. reflexivity. Qed.

Lemma jsonReplacer_keeps_data : keeps_data jsonReplacer.
Proof. intros k [] H; try reflexivity; discriminate. Qed.


Lemma ser_elems_render rec (items : list value) :
  Forall (fun x => forall k, rec k x = Some (render x)) items ->
  forall i, ser_elems rec i items = map render items.
Proof.
  induction 1 as [|x l Hx _ IH]; intros i; simpl; [reflexivity|].
  now rewrite Hx, IH.
Qed.

Lemma ser_members_render rec (fields : list (string * value)) :
  Forall (fun kv => forall k, rec k (snd kv) = Some (render (snd kv))) fields ->
  ser_members rec fields = map member_text fields.
Proof.
  induction 1 as [|[k x] l Hx _ IH]; simpl; [reflexivity|].
  simpl in Hx. now rewrite Hx, IH.
Qed.

Lemma max_of_ge (l : list nat) n : In n l -> (n <= max_of l)%nat.
Proof.
  induction l as [|m l IH]; simpl; [tauto|].
  intros [->|H]; [lia|]. specialize (IH H). lia.
Qed.

Lemma serialize_render replacer (v : value) :
  keeps_data replacer -> writes replacer v.
Proof.
  intros Hr.
  induction v as [| |b|n|s|items IH|fields IH|m s n props IH]
    using value_nested_ind; unfold writes; try discriminate;
    intros Hs fuel k Hfuel; (destruct fuel as [|fuel]; [simpl in Hfuel; lia|]);
    rewrite SerializeJSONProperty_S, Hr by assumption; cbv zeta.
  - reflexivity.
  - destruct b; reflexivity.
  - reflexivity.
  - reflexivity.
  - cbn [render]. rewrite ser_elems_render; [reflexivity|].
    cbn [serializable height] in *.
    rewrite Forall_forall in IH. apply List.Forall_forall. intros x Hx k'.
    apply IH.
    + now apply list_elem_of_In.
    + rewrite forallb_forall in Hs. now apply Hs.
    + pose proof (max_of_ge (map height items) (height x)
                    (in_map height items x Hx)). lia.
  - cbn [render]. cbn [serializable height] in *.
    apply andb_prop in Hs as [_ Hs].
    rewrite ser_members_render; [reflexivity|].
    rewrite Forall_forall in IH. apply List.Forall_forall. intros kv Hkv k'.
    apply IH.
    + now apply list_elem_of_In.
    + rewrite forallb_forall in Hs. now apply Hs.
    + pose proof (max_of_ge (map (fun kv => height (snd kv)) fields)
                    (height (snd kv))
                    (in_map (fun kv => height (snd kv)) fields kv Hkv)). lia.
Qed.

Lemma height_pos (v : value) : (1 <= height v)%nat.
Proof. destruct v; simpl; lia. Qed.


(** *** Errors on the wire *)

Lemma obj_set_values (o : list (string * value)) k v x :
  In x (map snd (obj_set o k v)) -> In x (map snd o) \/ x = v.
Proof.
  induction o as [|[k' v'] o IH]; simpl.
  - intros [<-|[]]. now right.
  - destruct (String.eqb k' k); simpl; intros [<-|H]; auto.
    destruct (IH H); auto.
Qed.

Lemma assign_values (props o : list (string * value)) x :
  In x (map snd (fold_left (fun obj kv => obj_set obj (fst kv) (snd kv)) props o)) ->
  In x (map snd o) \/ In x (map snd props).
Proof.
  revert o. induction props as [|[k v] props IH]; intros o; simpl; auto.
  intros H. destruct (IH _ H) as [H'|H']; auto.
  destruct (obj_set_values _ _ _ _ H') as [H''| ->]; auto.
Qed.

Lemma jsonReplacer_key k v : jsonReplacer k v = jsonReplacer "" v.
Proof. reflexivity. Qed.

Lemma jsonReplacer_height k (v x : value) fields :
  jsonReplacer k v = VObj fields -> In x (map snd fields) ->
  (S (height x) <= height v)%nat.
Proof.
  destruct v; try discriminate; simpl; intros [= <-] Hx.
  - apply in_map_iff in Hx as (kv & <- & Hkv).
    pose proof (max_of_ge _ _ (in_map (fun kv => height (snd kv)) _ _ Hkv)).
    simpl in *. lia.
  - apply assign_values in Hx as [Hx|Hx].
    + simpl in Hx. destruct stack; simpl in Hx;
        destruct Hx as [<-|[<-|[<-|[]]]]; simpl; lia.
    + apply in_map_iff in Hx as (kv & <- & Hkv).
      pose proof (max_of_ge _ _ (in_map (fun kv => height (snd kv)) _ _ Hkv)).
      simpl in *. lia.
Qed.

(** What [jsonReplacer] makes of a value is written as such, when it is
    serializable. *)
Lemma serialize_replaced (v : value) fuel k :
  serializable (jsonReplacer k v) = true ->
  (height v <= fuel)%nat ->
  SerializeJSONProperty fuel jsonReplacer k v = Some (render (jsonReplacer k v)).
Proof.
  intros Hs Hfuel.
  destruct (is_Error v) eqn:E.
  - destruct v; try discriminate.
    destruct fuel as [|fuel]; [simpl in Hfuel; lia|].
    rewrite SerializeJSONProperty_S. cbv zeta.
    destruct (jsonReplacer k (VError message stack name props)) as [| | | | | |fields|]
      eqn:EJ; try discriminate.
    cbn [render]. cbn [serializable] in Hs. apply andb_prop in Hs as [_ Hs].
    rewrite ser_members_render; [reflexivity|].
    apply List.Forall_forall. intros kv Hkv k'.
    apply (serialize_render jsonReplacer _ jsonReplacer_keeps_data).
    + rewrite forallb_forall in Hs. now apply Hs.
    + pose proof (jsonReplacer_height _ _ (snd kv) _ EJ (in_map snd _ _ Hkv)).
      lia.
  - assert (jsonReplacer k v = v) as Hv by (destruct v; try reflexivity; discriminate).
    rewrite Hv in *.
    now apply (serialize_render jsonReplacer _ jsonReplacer_keeps_data).
Qed.

(** The reply, written by the listener and read by the caller: the fields
    arrive, [result] as [jsonReplacer] leaves it. *)
Lemma reply_on_the_wire (ns : string) (cb : value) (b : bool) (result : value) :
  serializable cb = true ->
  transmissible (jsonReplacer "" result) = true ->
  exists str data,
    JSON_stringify jsonReplacer (Listen.Callback ns cb b result) = Some str
    /\ JSON_parse str = Some data
    /\ get_prop data "callback" = Normal cb
    /\ get_prop data "success" = Normal (VBool b)
    /\ get_prop data "result" = Normal (jsonReplacer "" result).
Proof.
  intros Hcb Hres. unfold JSON_stringify.
  set (root := Listen.Callback ns cb b result).
  assert (Hcbh : (height cb <= height root)%nat).
  { subst root. simpl. lia. }
  assert (Hrh : (height result <= height root)%nat).
  { subst root. simpl. lia. }
  destruct (height root) as [|H] eqn:EH; [pose proof (height_pos root); lia|].
  rewrite SerializeJSONProperty_S. cbv zeta.
  change (jsonReplacer "" root) with root. subst root.
  unfold Listen.Callback. cbn [ser_members].
  rewrite (SerializeJSONProperty_S H jsonReplacer "method" (VStr ns)).
  rewrite (SerializeJSONProperty_S H jsonReplacer "success" (VBool b)).
  cbv zeta. cbn [jsonReplacer].
  rewrite (serialize_render jsonReplacer cb jsonReplacer_keeps_data Hcb) by lia.
  assert (Hb : match (if b then Some (lit "true") else Some (lit "false")) with
               | Some t => Some t | None => None end
               = Some (render (VBool b))) by (now destruct b).
  destruct (jsonReplacer "" result) as [| | | | | | |] eqn:EJ.
  1: { (* undefined: the property is left out *)
    assert (result = VUndefined) as -> by (destruct result; now try discriminate).
    rewrite (SerializeJSONProperty_S H jsonReplacer "result" VUndefined).
    cbv zeta. cbn [jsonReplacer].
    exists (string_of_list_ascii
              (render (VObj [("method", VStr ns); ("callback", cb);
                             ("success", VBool b)]))).
    eexists. split; [|split; [apply JSON_parse_render|]].
    + destruct b; reflexivity.
    + simpl. now rewrite Hcb.
    + repeat split; reflexivity. }
  all: try discriminate.
  all: rewrite serialize_replaced by (rewrite ?jsonReplacer_key, ?EJ; assumption || lia);
    rewrite jsonReplacer_key, EJ;
    match type of EJ with
    | _ = ?r =>
        exists (string_of_list_ascii
                  (render (VObj [("method", VStr ns); ("callback", cb);
                                 ("success", VBool b); ("result", r)])))
    end;
    (eexists; split; [|split; [apply JSON_parse_render|]];
     [ destruct b; reflexivity
     | simpl in *; now rewrite Hcb, ?Hres
     | repeat split; reflexivity ]).
Qed.

(** ** Topics *)

Lemma split_slash_free s : slash_free s = true -> split "/" s = [s].
Proof.
  induction s as [|c s IH]; simpl; [reflexivity|].
  intros H. apply andb_prop in H as [Hc Hs]. apply negb_true_iff in Hc.
  rewrite Hc, IH by assumption. reflexivity.
Qed.

Lemma split_segment s t :
  slash_free s = true -> split "/" (s +:+ String "/" t) = s :: split "/" t.
Proof.
  induction s as [|c s IH]; simpl; [reflexivity|].
  intros H. apply andb_prop in H as [Hc Hs]. apply negb_true_iff in Hc.
  rewrite Hc, IH by assumption. reflexivity.
Qed.

Lemma split_segments s : Forall (fun x => slash_free x = true) (split "/" s).
Proof.
  induction s as [|c s IH]; simpl.
  - repeat constructor.
  - destruct (Ascii.eqb c "/") eqn:E.
    + constructor; [reflexivity|assumption].
    + destruct (split "/" s) as [|h t].
      * repeat constructor. simpl. now rewrite E.
      * inversion IH; subst. constructor; [|assumption]. simpl. now rewrite E.
Qed.

Lemma split_call_topic serverid fnname :
  slash_free serverid = true ->
  split "/" (call_topic serverid fnname)
  = "" :: "remotify" :: serverid :: "call" :: split "/" fnname.
Proof.
  intros H. unfold call_topic.
  change ("/remotify/" +:+ serverid +:+ "/call/" +:+ fnname)
    with ("" +:+ String "/" ("remotify" +:+ String "/"
            (serverid +:+ String "/" ("call" +:+ String "/" fnname)))).
  now rewrite !split_segment.
Qed.

Lemma split_callback_topic serverid clientid :
  slash_free serverid = true ->
  split "/" (callback_topic serverid clientid)
  = "" :: "remotify" :: serverid :: "callback" :: split "/" clientid.
Proof.
  intros H. unfold callback_topic.
  change ("/remotify/" +:+ serverid +:+ "/callback/" +:+ clientid)
    with ("" +:+ String "/" ("remotify" +:+ String "/"
            (serverid +:+ String "/" ("callback" +:+ String "/" clientid)))).
  now rewrite !split_segment.
Qed.

Lemma seg_is_Some s t : seg_is (Some s) t = true <-> s = t.
Proof. simpl. apply String.eqb_eq. Qed.

Lemma seg_is_refl s : seg_is (Some s) s = true.
Proof. now apply seg_is_Some. Qed.

(** ** The calling side *)

Lemma set_result_same c : set_result c (c_result c) = c.
Proof. now destruct c. Qed.

Lemma resume_calls id c st :
  calls (resume id c st) = <[id := set_result c (result_after c)]> (calls st).
Proof.
  unfold resume, result_after.
  destruct (c_result c) eqn:E1; [destruct (c_race c) as [|[]|] eqn:E2|..];
    try reflexivity; cbn [calls with_calls]; rewrite <- ?E1, ?set_result_same;
    try reflexivity.
  destruct (callbacks st !! id); reflexivity.
Qed.

Lemma resume_callbacks id c st :
  callbacks (resume id c st)
  = if times_out c then delete id (callbacks st) else callbacks st.
Proof.
  unfold resume, times_out.
  destruct (c_result c); [destruct (c_race c) as [|[]|]|..]; try reflexivity.
  cbn [callbacks with_calls].
  destruct (callbacks st !! id) eqn:E; [reflexivity|].
  cbn. symmetry. now apply delete_id.
Qed.

Lemma resume_cbCounter id c st : cbCounter (resume id c st) = cbCounter st.
Proof.
  unfold resume.
  destruct (c_result c); [destruct (c_race c) as [|[]|]|..]; try reflexivity.
  cbn. destruct (callbacks st !! id); reflexivity.
Qed.

Lemma resume_serverid id c st : serverid (resume id c st) = serverid st.
Proof.
  unfold resume.
  destruct (c_result c); [destruct (c_race c) as [|[]|]|..]; try reflexivity.
  cbn. destruct (callbacks st !! id); reflexivity.
Qed.

Lemma update_calls id f st c :
  calls st !! id = Some c ->
  calls (update id f st) = <[id := finish (f c)]> (calls st).
Proof.
  intros H. unfold update, react. cbn [calls with_calls].
  rewrite lookup_alter_eq, H. cbn [fmap option_fmap option_map].
  rewrite resume_calls. cbn [calls with_calls].
  fold (reacted (f c)). fold (finish (f c)).
  apply map_eq. intros j. destruct (decide (j = id)) as [->|Hne].
  - now rewrite !lookup_insert_eq.
  - rewrite !lookup_insert_ne by congruence. now rewrite lookup_alter_ne by congruence.
Qed.

Lemma update_callbacks id f st c :
  calls st !! id = Some c ->
  callbacks (update id f st)
  = if times_out (reacted (f c)) then delete id (callbacks st) else callbacks st.
Proof.
  intros H. unfold update, react. cbn [calls with_calls].
  rewrite lookup_alter_eq, H. cbn [fmap option_fmap option_map].
  now rewrite resume_callbacks.
Qed.

Lemma update_absent id f st :
  calls st !! id = None -> update id f st = st.
Proof.
  intros H. unfold update, react. cbn [calls with_calls].
  rewrite lookup_alter_eq, H. cbn.
  destruct st; unfold with_calls; cbn in *. f_equal.
  apply map_eq. intros j. destruct (decide (j = id)) as [->|Hne].
  - now rewrite lookup_alter_eq, H.
  - now rewrite lookup_alter_ne by congruence.
Qed.

Lemma update_cbCounter id f st : cbCounter (update id f st) = cbCounter st.
Proof.
  unfold update, react. cbn [calls with_calls].
  destruct (alter f id (calls st) !! id); [now rewrite resume_cbCounter|reflexivity].
Qed.

Lemma update_serverid id f st : serverid (update id f st) = serverid st.
Proof.
  unfold update, react. cbn [calls with_calls].
  destruct (alter f id (calls st) !! id); [now rewrite resume_serverid|reflexivity].
Qed.

(** *** Invariants of the reachable states *)

Lemma finish_inv c :
  (c_race c = Pending -> c_result c = Pending) -> call_inv (finish c).
Proof.
  destruct c as [fn args p d a s r res].
  unfold call_inv, finish, reacted, result_after, all_of, race_of; cbn.
  intros H.
  destruct r as [|[]|], res; cbn; try (specialize (H eq_refl); discriminate);
    destruct a, s as [|[]|], d, p; cbn; intuition congruence.
Qed.

Lemma finish_fields c :
  c_fnname (finish c) = c_fnname c /\ c_args (finish c) = c_args c
  /\ c_promise (finish c) = c_promise c /\ c_isDown (finish c) = c_isDown c
  /\ c_sleep (finish c) = c_sleep c.
Proof. now destruct c. Qed.

Lemma finish_settled c :
  c_result c <> Pending -> c_result (finish c) = c_result c.
Proof.
  destruct c as [fn args p d a s r res]. unfold finish, result_after; cbn.
  destruct res; congruence.
Qed.

Lemma new_inv serverid clientid callbackTimeout suffix :
  Inv (new serverid clientid callbackTimeout suffix).
Proof.
  split; cbn; intros; try (rewrite lookup_empty in *; discriminate); lia.
Qed.

Lemma update_inv id f st :
  Inv st -> settler f ->
  (forall c, is_Some (callbacks st !! id) -> c_promise (f c) = c_promise c) ->
  Inv (update id f st).
Proof.
  intros [Hc Hcb Hn] Hf Hp.
  destruct (calls st !! id) as [c|] eqn:E;
    [|rewrite update_absent by assumption; now split].
  split.
  - intros j c'. rewrite (update_calls _ _ _ _ E), update_cbCounter.
    destruct (decide (j = id)) as [->|Hne].
    + rewrite lookup_insert_eq. intros [= <-]. split; [now apply (Hc _ _ E)|].
      apply finish_inv. destruct (Hf c) as (_ & _ & _ & -> & ->).
      destruct (Hc _ _ E) as [_ (_ & H2 & _)]. intros Hr. now apply H2.
    + rewrite lookup_insert_ne by congruence. apply Hc.
  - intros j pc. rewrite (update_callbacks _ _ _ _ E), (update_calls _ _ _ _ E).
    intros Hj.
    assert (Hj' : callbacks st !! j = Some pc /\
                  (j = id -> times_out (reacted (f c)) = false)).
    { destruct (times_out (reacted (f c))); [|now split].
      destruct (decide (j = id)) as [->|Hne].
      - now rewrite lookup_delete_eq in Hj.
      - rewrite lookup_delete_ne in Hj by congruence. split; [assumption|congruence]. }
    destruct Hj' as [Hj' _].
    destruct (Hcb _ _ Hj') as [Hid (c' & Hc' & Hp')]. split; [assumption|].
    destruct (decide (j = id)) as [->|Hne].
    + rewrite lookup_insert_eq. eexists. split; [reflexivity|].
      destruct (finish_fields (f c)) as (_ & _ & -> & _).
      rewrite Hp by eauto. congruence.
    + rewrite lookup_insert_ne by congruence. eauto.
  - now rewrite update_cbCounter.
Qed.

Lemma forget_inv id st :
  Inv st -> Inv (with_callbacks (delete id (callbacks st)) st).
Proof.
  intros [Hc Hcb Hn]. split; cbn; [assumption| |assumption].
  intros j pc Hj. destruct (decide (j = id)) as [->|Hne].
  - now rewrite lookup_delete_eq in Hj.
  - rewrite lookup_delete_ne in Hj by congruence. eauto.
Qed.

Lemma settler_promise p : settler (fun c => set_promise c (settle (c_promise c) p)).
Proof. intros c. now destruct c. Qed.

Lemma settler_isDown p : settler (fun c => set_isDown c (settle (c_isDown c) p)).
Proof. intros c. now destruct c. Qed.

Lemma settler_sleep p : settler (fun c => set_sleep c (settle (c_sleep c) p)).
Proof. intros c. now destruct c. Qed.

Lemma cb_settle_inv pc p st :
  Inv st ->
  Inv (update (pc_id pc) (fun c => set_promise c (settle (c_promise c) p))
         (with_callbacks (delete (pc_id pc) (callbacks st)) st)).
Proof.
  intros H. apply update_inv; [now apply forget_inv|apply settler_promise|].
  cbn. rewrite lookup_delete_eq. intros c [? [=]].
Qed.

Lemma onCallback_inv st ns str : Inv st -> Inv (fst (onCallback st ns str)).
Proof.
  intros H. unfold onCallback.
  repeat match goal with
         | |- context [if ?b then _ else _] => destruct b; cbn [fst]; try assumption
         | |- context [match ?x with _ => _ end] =>
             destruct x eqn:?; cbn [fst]; try assumption
         end;
    unfold cb_resolve, cb_reject; now apply cb_settle_inv.
Qed.

Lemma remotify_inv fnname args st :
  Inv st -> Inv (snd (fst (remotify fnname args st))).
Proof.
  intros [Hc Hcb Hn]. unfold remotify, addCallback. cbn.
  split; cbn.
  - intros j c. destruct (decide (j = cbCounter st + 1)) as [->|Hne].
    + rewrite lookup_insert_eq. intros [= <-]. split; [lia|].
      unfold call_inv; cbn. tauto.
    + rewrite lookup_insert_ne by congruence. intros Hj.
      destruct (Hc _ _ Hj). split; [lia|assumption].
  - intros j pc. destruct (decide (j = cbCounter st + 1)) as [->|Hne].
    + rewrite !lookup_insert_eq. intros [= <-]. split; [reflexivity|]. eauto.
    + rewrite !lookup_insert_ne by congruence. apply Hcb.
  - lia.
Qed.

Lemma perform_inv st a : Inv st -> Inv (perform st a).
Proof.
  intros H. destruct a as [fnname args|[id n|id err|ns str|id]]; cbn [perform step fst].
  - now apply remotify_inv.
  - apply update_inv; [assumption|apply settler_isDown|]. intros c _. now destruct c.
  - apply update_inv; [assumption|apply settler_isDown|]. intros c _. now destruct c.
  - now apply onCallback_inv.
  - apply update_inv; [assumption|apply settler_sleep|]. intros c _. now destruct c.
Qed.

Lemma exec_inv acts st : Inv st -> Inv (exec st acts).
Proof.
  revert st. induction acts as [|a acts IH]; intros st H; [assumption|].
  apply IH. now apply perform_inv.
Qed.

Lemma exec_app st acts1 acts2 :
  exec st (acts1 ++ acts2) = exec (exec st acts1) acts2.
Proof. apply fold_left_app. Qed.

(** *** What one action can do *)

Lemma onCallback_shape st ns str :
  Inv st -> shape st (Occur (Message ns str)) (fst (onCallback st ns str)).
Proof.
  intros H. unfold onCallback.
  repeat match goal with
         | |- context [if negb ?b then _ else _] =>
             destruct b; cbn [negb fst]; try apply shape_same
         end.
  destruct (JSON_parse_c str) as [data|] eqn:Ed; cbn [fst]; [|apply shape_same].
  destruct (get_prop data "callback") as [key|] eqn:Ek; cbn [fst]; [|apply shape_same].
  destruct (callbacks_get st key) as [pc|] eqn:Ec; cbn [fst]; [|apply shape_same].
  destruct key; try discriminate. cbn in Ec.
  destruct (inv_callbacks _ H _ _ Ec) as [Hid _].
  assert (Hcon : concerns (pc_id pc) (Occur (Message ns str)) = true).
  { cbn. unfold payload_callback. unfold JSON_parse_c in Ed.
    destruct (JSON_parse str); [|discriminate]. injection Ed as ->.
    rewrite Ek, Hid. apply Z.eqb_refl. }
  match goal with
  | |- context [match ?x with _ => _ end] => destruct x as [[success result]|]
  end; cbn [fst]; [|apply shape_same].
  destruct (truthy success); unfold cb_resolve, cb_reject;
    (eapply shape_update;
     [now right|apply settler_promise|assumption|intros _ c; now destruct c]).
Qed.

Lemma perform_shape st a : Inv st -> shape st a (perform st a).
Proof.
  intros H. destruct a as [fnname args|[id n|id err|ns str|id]]; cbn [perform step fst].
  - now apply shape_invoke.
  - apply shape_update; [now left|apply settler_isDown|apply Z.eqb_refl|].
    cbn. rewrite Z.eqb_refl. discriminate.
  - apply shape_update; [now left|apply settler_isDown|apply Z.eqb_refl|].
    cbn. rewrite Z.eqb_refl. discriminate.
  - now apply onCallback_shape.
  - apply shape_update; [now left|apply settler_sleep|apply Z.eqb_refl|].
    intros _ c. now destruct c.
Qed.

Lemma update_other id f st j :
  j <> id ->
  calls (update id f st) !! j = calls st !! j
  /\ callbacks (update id f st) !! j = callbacks st !! j.
Proof.
  intros Hne. destruct (calls st !! id) as [c|] eqn:E.
  - rewrite (update_calls _ _ _ _ E), (update_callbacks _ _ _ _ E).
    rewrite lookup_insert_ne by congruence. split; [reflexivity|].
    destruct (times_out _); [now rewrite lookup_delete_ne by congruence|reflexivity].
  - now rewrite update_absent.
Qed.

Lemma update_callbacks_absent id f st j :
  callbacks st !! j = None -> callbacks (update id f st) !! j = None.
Proof.
  intros Hj. destruct (calls st !! id) as [c|] eqn:E.
  - rewrite (update_callbacks _ _ _ _ E).
    destruct (times_out _); [|assumption].
    destruct (decide (j = id)) as [->|Hne];
      [apply lookup_delete_eq|now rewrite lookup_delete_ne by congruence].
  - now rewrite update_absent.
Qed.

Lemma concerns_inj id i a : concerns id a = false -> concerns i a = true -> id <> i.
Proof. intros H1 H2 ->. congruence. Qed.

(** An action that is not about a call leaves it alone. *)
Lemma perform_frame st a id :
  Inv st -> id <= cbCounter st -> concerns id a = false ->
  calls (perform st a) !! id = calls st !! id
  /\ callbacks (perform st a) !! id = callbacks st !! id.
Proof.
  intros H Hid Hcon. destruct (perform_shape st a H) as [|i f st0 Hst0 Hf Hi Hd|fnname args ->].
  - now split.
  - pose proof (concerns_inj _ _ _ Hcon Hi) as Hne.
    destruct (update_other i f st0 id Hne) as [-> ->].
    destruct Hst0 as [->| ->]; [now split|]. cbn.
    now rewrite lookup_delete_ne by congruence.
  - unfold remotify, addCallback. cbn.
    rewrite !lookup_insert_ne by lia. now split.
Qed.

(** An action keeps every activation, with its name and arguments, and its
    result once that is settled. *)
Lemma perform_call st a id c :
  Inv st -> calls st !! id = Some c ->
  exists c', calls (perform st a) !! id = Some c'
             /\ c_fnname c' = c_fnname c /\ c_args c' = c_args c
             /\ (c_result c <> Pending -> c_result c' = c_result c).
Proof.
  intros H Hc. destruct (perform_shape st a H) as [|i f st0 Hst0 Hf Hi Hd|fnname args ->].
  - eauto.
  - assert (Hc0 : calls st0 !! id = Some c) by (destruct Hst0 as [->| ->]; assumption).
    destruct (decide (id = i)) as [->|Hne].
    + rewrite (update_calls _ _ _ _ Hc0), lookup_insert_eq.
      eexists. split; [reflexivity|].
      destruct (finish_fields (f c)) as (-> & -> & _).
      destruct (Hf c) as (-> & -> & _ & _ & Hr). repeat split.
      intros Hs. rewrite finish_settled; congruence.
    + destruct (update_other i f st0 id Hne) as [-> _]. eauto.
  - destruct (inv_calls _ H _ _ Hc) as [Hid _].
    unfold remotify, addCallback. cbn.
    rewrite lookup_insert_ne by lia. eauto.
Qed.

(** An id that has left the registry does not come back. *)
Lemma perform_gone st a id :
  Inv st -> id <= cbCounter st -> callbacks st !! id = None ->
  callbacks (perform st a) !! id = None.
Proof.
  intros H Hid Hcb. destruct (perform_shape st a H) as [|i f st0 Hst0 Hf Hi Hd|fnname args ->].
  - assumption.
  - apply update_callbacks_absent. destruct Hst0 as [->| ->]; [assumption|].
    cbn. destruct (decide (id = i)) as [->|Hne];
      [apply lookup_delete_eq|now rewrite lookup_delete_ne by congruence].
  - unfold remotify, addCallback. cbn. now rewrite lookup_insert_ne by lia.
Qed.

Lemma perform_counter st a : cbCounter st <= cbCounter (perform st a).
Proof.
  destruct a as [fnname args|[id n|id err|ns str|id]]; cbn [perform step fst];
    unfold on_published, on_publish_failed, on_timer;
    rewrite ?update_cbCounter; try lia.
  - cbn. lia.
  - unfold onCallback.
    repeat match goal with
           | |- context [if ?b then _ else _] => destruct b; cbn [fst]; try lia
           | |- context [match ?x with _ => _ end] =>
               destruct x eqn:?; cbn [fst]; try lia
           end;
      unfold cb_resolve, cb_reject; rewrite update_cbCounter; cbn; lia.
Qed.

Lemma perform_serverid st a : serverid (perform st a) = serverid st.
Proof.
  destruct a as [fnname args|[id n|id err|ns str|id]]; cbn [perform step fst];
    unfold on_published, on_publish_failed, on_timer;
    rewrite ?update_serverid; try reflexivity.
  unfold onCallback.
  repeat match goal with
         | |- context [if ?b then _ else _] => destruct b; cbn [fst]; try reflexivity
         | |- context [match ?x with _ => _ end] =>
             destruct x eqn:?; cbn [fst]; try reflexivity
         end;
    unfold cb_resolve, cb_reject; now rewrite update_serverid.
Qed.

Lemma exec_serverid acts st : serverid (exec st acts) = serverid st.
Proof.
  revert st. induction acts as [|a acts IH]; intros st; cbn; [reflexivity|].
  unfold exec in IH. now rewrite IH, perform_serverid.
Qed.

Lemma exec_call acts st id c :
  Inv st -> calls st !! id = Some c ->
  exists c', calls (exec st acts) !! id = Some c'
             /\ c_fnname c' = c_fnname c /\ c_args c' = c_args c
             /\ (c_result c <> Pending -> c_result c' = c_result c).
Proof.
  revert st c. induction acts as [|a acts IH]; intros st c H Hc; cbn.
  - eauto.
  - destruct (perform_call st a id c H Hc) as (c1 & Hc1 & Hf & Ha & Hr).
    destruct (IH _ _ (perform_inv _ a H) Hc1) as (c2 & Hc2 & Hf2 & Ha2 & Hr2).
    exists c2. split; [assumption|]. repeat split; try congruence.
    intros Hs. rewrite Hr2; [now apply Hr|]. rewrite Hr by assumption. assumption.
Qed.

Lemma exec_gone acts st id :
  Inv st -> id <= cbCounter st -> callbacks st !! id = None ->
  callbacks (exec st acts) !! id = None.
Proof.
  revert st. induction acts as [|a acts IH]; intros st H Hid Hcb; cbn; [assumption|].
  apply IH; [now apply perform_inv| |now apply perform_gone].
  pose proof (perform_counter st a). lia.
Qed.

Lemma exec_frame acts st id :
  Inv st -> id <= cbCounter st ->
  forallb (fun a => negb (concerns id a)) acts = true ->
  calls (exec st acts) !! id = calls st !! id
  /\ callbacks (exec st acts) !! id = callbacks st !! id.
Proof.
  revert st. induction acts as [|a acts IH]; intros st H Hid Hacts; cbn; [now split|].
  cbn in Hacts. apply andb_prop in Hacts as [Ha Hacts]. apply negb_true_iff in Ha.
  destruct (perform_frame st a id H Hid Ha) as [<- <-].
  apply IH; [now apply perform_inv| |assumption].
  pose proof (perform_counter st a). lia.
Qed.

(** *** The two halves of a call *)


(** The listener, handed a call for a function it has. *)
Lemma listener_replies (L : Listen.t) n f clientid id args str :
  slash_free (Listen.serverid L) = true ->
  slash_free n = true ->
  Listen.fns L !! n = Some f ->
  JSON_parse str = Some (Call_message clientid id args) ->
  Listen.onCall L (call_topic (Listen.serverid L) n) str
  = (L, Normal (Some (callback_topic (Listen.serverid L) clientid,
                      JSON_stringify (Listen.config_jsonReplacer L)
                        (Listen.Callback (call_topic (Listen.serverid L) n)
                           (VNum id) (outcome_flag (f args))
                           (outcome_value (f args)))))).
Proof.
  intros Hsid Hn Hf Hstr. unfold Listen.onCall.
  rewrite split_call_topic, (split_slash_free n) by assumption.
  cbn [lookup list_lookup]. rewrite !seg_is_refl. cbn [negb].
  unfold JSON_parse_c. rewrite Hstr. cbn [mbind completion_bind option_bind].
  rewrite Hf. cbn. destruct (f args); reflexivity.
Qed.


(** The caller, handed a reply for an id in its registry: whatever the last
    segment of the topic. *)
Lemma caller_receives st anyone str data id pc success result :
  slash_free (serverid st) = true ->
  JSON_parse str = Some data ->
  get_prop data "callback" = Normal (VNum id) ->
  get_prop data "success" = Normal success ->
  get_prop data "result" = Normal result ->
  callbacks st !! id = Some pc ->
  onCallback st (callback_topic (serverid st) anyone) str
  = ((if truthy success then cb_resolve else cb_reject) pc result st, Normal tt).
Proof.
  intros Hsid Hstr Hcb Hs Hr Hpc. unfold onCallback.
  rewrite split_callback_topic by assumption.
  cbn [lookup list_lookup]. rewrite !seg_is_refl. cbn [negb].
  unfold JSON_parse_c. rewrite Hstr, Hcb. cbn [callbacks_get]. rewrite Hpc, Hs.
  cbn [mbind completion_bind]. rewrite Hr. reflexivity.
Qed.


Lemma cb_settle_calls pc p st c :
  calls st !! pc_id pc = Some c ->
  calls (update (pc_id pc) (fun c => set_promise c (settle (c_promise c) p))
           (with_callbacks (delete (pc_id pc) (callbacks st)) st))
  = <[pc_id pc := finish (set_promise c (settle (c_promise c) p))]> (calls st).
Proof. intros H. now rewrite (update_calls _ _ _ c). Qed.

Lemma cb_settle_callbacks pc p st j :
  callbacks (update (pc_id pc) (fun c => set_promise c (settle (c_promise c) p))
               (with_callbacks (delete (pc_id pc) (callbacks st)) st)) !! j
  = if decide (j = pc_id pc) then None else callbacks st !! j.
Proof.
  destruct (decide (j = pc_id pc)) as [->|Hne].
  - apply update_callbacks_absent. cbn. apply lookup_delete_eq.
  - destruct (update_other (pc_id pc)
                (fun c => set_promise c (settle (c_promise c) p))
                (with_callbacks (delete (pc_id pc) (callbacks st)) st) j Hne)
      as [_ ->].
    cbn. now rewrite lookup_delete_ne by congruence.
Qed.

(** Until its publish reports, [isDown] of a call stays as it is. *)
Lemma perform_isDown st a id c :
  Inv st -> calls st !! id = Some c -> reports id a = false ->
  exists c', calls (perform st a) !! id = Some c' /\ c_isDown c' = c_isDown c.
Proof.
  intros H Hc Hr. destruct (perform_shape st a H) as [|i f st0 Hst0 Hf Hi Hd|fnname args ->].
  - eauto.
  - assert (Hc0 : calls st0 !! id = Some c) by (destruct Hst0 as [->| ->]; assumption).
    destruct (decide (id = i)) as [->|Hne].
    + rewrite (update_calls _ _ _ _ Hc0), lookup_insert_eq.
      eexists. split; [reflexivity|].
      destruct (finish_fields (f c)) as (_ & _ & _ & -> & _). now apply Hd.
    + destruct (update_other i f st0 id Hne) as [-> _]. eauto.
  - destruct (inv_calls _ H _ _ Hc) as [Hid _].
    unfold remotify, addCallback. cbn.
    rewrite lookup_insert_ne by lia. eauto.
Qed.

Lemma exec_isDown acts st id c :
  Inv st -> calls st !! id = Some c ->
  forallb (fun a => negb (reports id a)) acts = true ->
  exists c', calls (exec st acts) !! id = Some c' /\ c_isDown c' = c_isDown c.
Proof.
  revert st c. induction acts as [|a acts IH]; intros st c H Hc Hq; cbn; [eauto|].
  cbn in Hq. apply andb_prop in Hq as [Ha Hq]. apply negb_true_iff in Ha.
  destruct (perform_isDown st a id c H Hc Ha) as (c1 & Hc1 & E1).
  destruct (IH _ _ (perform_inv _ a H) Hc1 Hq) as (c2 & Hc2 & E2).
  exists c2. split; [assumption|congruence].
Qed.

Lemma remotify_fresh st0 n args id st1 pub :
  remotify n args st0 = (id, st1, pub) ->
  id = cbCounter st0 + 1
  /\ cbCounter st1 = id
  /\ calls st1 !! id = Some (fresh_call n args)
  /\ callbacks st1 !! id = Some {| pc_id := id |}
  /\ serverid st1 = serverid st0
  /\ config_clientid st1 = config_clientid st0
  /\ pub = (call_topic (serverid st0) n,
            JSON_stringify no_replacer
              (Call_message (config_clientid st0) id args))
  /\ st1 = perform st0 (Invoke n args).
Proof.
  unfold remotify, addCallback. cbn. intros [= <- <- <-]. cbn.
  rewrite !lookup_insert_eq. repeat split.
Qed.


Lemma tracks_quiet st id c cb acts :
  tracks st id c cb ->
  forallb (fun a => negb (concerns id a)) acts = true ->
  tracks (exec st acts) id c cb.
Proof.
  intros [Hi Hc Hcb] Hq.
  destruct (inv_calls _ Hi _ _ Hc) as [[_ Hid] _].
  destruct (exec_frame acts st id Hi Hid Hq) as [E1 E2].
  split; [now apply exec_inv|congruence|congruence].
Qed.

Lemma tracks_update st id c cb f :
  tracks st id c cb -> settler f ->
  (forall c, c_promise (f c) = c_promise c) ->
  tracks (update id f st) id (finish (f c))
    (if times_out (reacted (f c)) then None else cb).
Proof.
  intros [Hi Hc Hcb] Hf Hp. split.
  - apply update_inv; auto.
  - now rewrite (update_calls _ _ _ _ Hc), lookup_insert_eq.
  - rewrite (update_callbacks _ _ _ _ Hc).
    destruct (times_out _); [apply lookup_delete_eq|assumption].
Qed.

Lemma tracks_published st id c cb k :
  tracks st id c cb ->
  tracks (perform st (Occur (Published id k))) id
    (finish (set_isDown c
               (settle (c_isDown c)
                  (if k =? 0 then Rejected (backend_down_error (serverid st))
                   else Fulfilled VUndefined))))
    (if times_out
          (reacted (set_isDown c
               (settle (c_isDown c)
                  (if k =? 0 then Rejected (backend_down_error (serverid st))
                   else Fulfilled VUndefined))))
     then None else cb).
Proof.
  intros H. cbn [perform step fst]. unfold on_published.
  apply (tracks_update st id c cb
           (fun c => set_isDown c (settle (c_isDown c) _)) H).
  - apply settler_isDown.
  - intros c'. now destruct c'.
Qed.

Lemma tracks_timer st id c cb :
  tracks st id c cb ->
  tracks (perform st (Occur (TimerFired id))) id
    (finish (set_sleep c (settle (c_sleep c) (Fulfilled timedout))))
    (if times_out (reacted (set_sleep c (settle (c_sleep c) (Fulfilled timedout))))
     then None else cb).
Proof.
  intros H. cbn [perform step fst]. unfold on_timer.
  apply (tracks_update st id c cb
           (fun c => set_sleep c (settle (c_sleep c) _)) H).
  - apply settler_sleep.
  - intros c'. now destruct c'.
Qed.

(** A reply for an id in the registry settles the promise of that call and
    removes the entry. *)
Lemma tracks_reply st id c pc anyone str data success result :
  tracks st id c (Some pc) ->
  slash_free (serverid st) = true ->
  JSON_parse str = Some data ->
  get_prop data "callback" = Normal (VNum id) ->
  get_prop data "success" = Normal success ->
  get_prop data "result" = Normal result ->
  tracks (perform st (Occur (Message (callback_topic (serverid st) anyone) str)))
    id
    (finish (set_promise c
               (settle (c_promise c)
                  (if truthy success then Fulfilled result else Rejected result))))
    None.
Proof.
  intros [Hi Hc Hcb] Hsid Hstr Hk Hs Hr. cbn [perform step].
  rewrite (caller_receives st anyone str data id pc success result) by assumption.
  cbn [fst]. destruct (inv_callbacks _ Hi _ _ Hcb) as [Hid _].
  assert (E : (if truthy success then cb_resolve else cb_reject) pc result st
              = update (pc_id pc)
                  (fun c => set_promise c
                     (settle (c_promise c)
                        (if truthy success then Fulfilled result
                         else Rejected result)))
                  (with_callbacks (delete (pc_id pc) (callbacks st)) st))
    by (destruct (truthy success); reflexivity).
  rewrite E. split.
  - now apply cb_settle_inv.
  - rewrite (cb_settle_calls pc _ st c) by congruence.
    rewrite Hid. now rewrite lookup_insert_eq.
  - rewrite cb_settle_callbacks. rewrite Hid. now rewrite decide_True.
Qed.

Lemma tracks_result st id c cb :
  tracks st id c cb -> result_of st id = Some (c_result c).
Proof. intros [_ Hc _]. unfold result_of. now rewrite Hc. Qed.

(** Once settled, the result of a call stays. *)
Lemma settled_stays st id c cb acts :
  tracks st id c cb -> c_result c <> Pending ->
  result_of (exec st acts) id = Some (c_result c).
Proof.
  intros [Hi Hc _] Hs.
  destruct (exec_call acts st id c Hi Hc) as (c' & Hc' & _ & _ & Hr).
  unfold result_of. rewrite Hc'. cbn. now rewrite Hr.
Qed.

Lemma exec_cons st a acts : exec st (a :: acts) = exec (perform st a) acts.
Proof. reflexivity. Qed.


(** ** The properties of the specification *)





Lemma update_at id f st c :
  calls st !! id = Some c ->
  calls (update id f st) !! id = Some (finish (f c))
  /\ callbacks (update id f st) !! id
     = if times_out (reacted (f c)) then None else callbacks st !! id.
Proof.
  intros Hc. rewrite (update_calls _ _ _ _ Hc), (update_callbacks _ _ _ _ Hc).
  rewrite lookup_insert_eq. split; [reflexivity|].
  destruct (times_out _); [apply lookup_delete_eq|reflexivity].
Qed.

(** C2: the entry of a call rejected because no one is subscribed, or
    because the publish failed, stays in the registry, also after the timer
    of the call has fired. *)
Theorem backend_down_leaves_entry (st : Remotify.t) n args err :
  let r := remotify n args st in
  let id := fst (fst r) in
  let st1 := snd (fst r) in
  (let st2 := exec st1 [Occur (Published id 0); Occur (TimerFired id)] in
   result_of st2 id = Some (Rejected (backend_down_error (serverid st)))
   /\ callbacks st2 !! id = Some {| pc_id := id |})
  /\ (let st2 := exec st1 [Occur (PublishFailed id err); Occur (TimerFired id)] in
      result_of st2 id = Some (Rejected err)
      /\ callbacks st2 !! id = Some {| pc_id := id |}).
Proof.
  cbv zeta.
  destruct (remotify n args st) as [[id st1] pub] eqn:E. cbn [fst snd].
  destruct (remotify_fresh _ _ _ _ _ _ E) as (_ & _ & Hc & Hcb & Hs & _).
  unfold exec, result_of. cbn [fold_left perform step fst].
  unfold on_published, on_publish_failed, on_timer.
  split.
  - destruct (update_at id
                (fun c => set_isDown c
                   (settle (c_isDown c)
                      (if 0 =? 0 then Rejected (backend_down_error (serverid st1))
                       else Fulfilled VUndefined))) st1 _ Hc) as [HcA HcbA].
    destruct (update_at id
                (fun c => set_sleep c (settle (c_sleep c) (Fulfilled timedout)))
                _ _ HcA) as [HcB HcbB].
    rewrite HcB, HcbB, HcbA, Hcb, Hs. now split.
  - destruct (update_at id
                (fun c => set_isDown c (settle (c_isDown c) (Rejected err)))
                st1 _ Hc) as [HcA HcbA].
    destruct (update_at id
                (fun c => set_sleep c (settle (c_sleep c) (Fulfilled timedout)))
                _ _ HcA) as [HcB HcbB].
    rewrite HcB, HcbB, HcbA, Hcb. now split.
Qed.

(** The caller never looks at the last segment of the topic of a reply. *)
Lemma onCallback_any_clientid st one other str :
  slash_free (serverid st) = true ->
  onCallback st (callback_topic (serverid st) one) str
  = onCallback st (callback_topic (serverid st) other) str.
Proof.
  intros H. unfold onCallback. now rewrite !split_callback_topic by assumption.
Qed.

(** C3: a reply published on the reply topic of another caller of the same
    server, carrying an id this caller has pending, settles this caller's
    call and empties its registry entry. *)
Theorem reply_for_another_caller_is_accepted :
  let r := remotify "Squarer.square" [VNum 5] example_caller in
  let id := fst (fst r) in
  let st1 := snd (fst r) in
  let topic := callback_topic "backend" "someone_else_ff" in
  let payload :=
    dq "{'method':'/remotify/backend/call/other','callback':1,'success':true,'result':7}" in
  let st2 := exec st1 [Occur (Published id 1); Occur (Message topic payload)] in
  subscription st1 = "/remotify/backend/callback/unnamed_0a"
  /\ topic = "/remotify/backend/callback/someone_else_ff"
  /\ callbacks st1 !! id = Some {| pc_id := id |}
  /\ callbacks st2 !! id = None
  /\ result_of st2 id = Some (Fulfilled (VNum 7)).
Proof. vm_compute. repeat split. Qed.

Lemma timer_on_pending c :
  call_inv c -> c_result c = Pending ->
  c_result (finish (set_sleep c (settle (c_sleep c) (Fulfilled timedout))))
  = Rejected (timeout_rejection (c_fnname c) (c_args c))
  /\ times_out (reacted (set_sleep c (settle (c_sleep c) (Fulfilled timedout))))
     = true.
Proof.
  destruct c as [fn args p d a s r res]. unfold call_inv. cbn.
  intros (H1 & H2 & H3) ->. specialize (H1 eq_refl). subst r.
  destruct (H2 eq_refl) as (_ & -> & ->). specialize (H3 eq_refl).
  unfold finish, reacted, result_after, times_out, all_of, race_of in *. cbn in *.
  rewrite H3. cbn. now split.
Qed.

(** The call issued by [remotify], found again after any actions. *)
Lemma issued_call sid cid tmo sfx history n args id st1 pub acts :
  remotify n args (exec (new sid cid tmo sfx) history) = (id, st1, pub) ->
  exists c,
    tracks (exec st1 acts) id c (callbacks (exec st1 acts) !! id)
    /\ c_fnname c = n /\ c_args c = args /\ call_inv c
    /\ id <= cbCounter (exec st1 acts)
    /\ serverid (exec st1 acts) = sid.
Proof.
  intros Hrem.
  assert (Hi0 : Inv (exec (new sid cid tmo sfx) history)) by apply exec_inv, new_inv.
  destruct (remotify_fresh _ _ _ _ _ _ Hrem)
    as (_ & _ & Hc1 & _ & Hs1 & _ & _ & Hst1).
  assert (Hi1 : Inv st1) by (rewrite Hst1; now apply perform_inv).
  destruct (exec_call acts st1 id _ Hi1 Hc1) as (c & Hc & Hn & Ha & _).
  pose proof (exec_inv acts st1 Hi1) as Hi.
  exists c. split; [now split|]. split; [assumption|]. split; [assumption|].
  destruct (inv_calls _ Hi _ _ Hc) as [[_ Hid] Hci].
  split; [assumption|]. split; [assumption|].
  rewrite exec_serverid, Hs1, exec_serverid. reflexivity.
Qed.

(** The timer, firing on a call that is still waiting. *)
Lemma timer_rejects sid cid tmo sfx history n args id st1 pub acts :
  remotify n args (exec (new sid cid tmo sfx) history) = (id, st1, pub) ->
  result_of (exec st1 acts) id = Some Pending ->
  exists c,
    tracks (perform (exec st1 acts) (Occur (TimerFired id))) id c None
    /\ c_result c = Rejected (timeout_rejection n args)
    /\ id <= cbCounter (perform (exec st1 acts) (Occur (TimerFired id))).
Proof.
  intros Hrem Hpend.
  destruct (issued_call _ _ _ _ _ _ _ _ _ _ acts Hrem)
    as (c & T & Hn & Ha & Hci & Hid & _).
  rewrite (tracks_result _ _ _ _ T) in Hpend. injection Hpend as Hpend.
  destruct (timer_on_pending c Hci Hpend) as [Hres Hto].
  pose proof (tracks_timer _ _ _ _ T) as T'. rewrite Hto in T'.
  rewrite Hn, Ha in Hres.
  eexists. split; [exact T'|]. split; [assumption|].
  pose proof (perform_counter (exec st1 acts) (Occur (TimerFired id))). lia.
Qed.



Lemma published_on_pending c sid k :
  call_inv c -> c_result c = Pending -> c_isDown c = Pending ->
  c_result (finish (set_isDown c
              (settle (c_isDown c)
                 (if k =? 0 then Rejected (backend_down_error sid)
                  else Fulfilled VUndefined))))
  = if k =? 0 then Rejected (backend_down_error sid)
    else match c_promise c with
         | Fulfilled v => Fulfilled v
         | _ => Pending
         end.
Proof.
  destruct c as [fn args p d a s r res]. unfold call_inv. cbn.
  intros (H1 & H2 & H3) -> ->. specialize (H1 eq_refl). subst r.
  destruct (H2 eq_refl) as (_ & -> & ->). specialize (H3 eq_refl).
  unfold finish, reacted, result_after, all_of, race_of in *. cbn in *.
  destruct (k =? 0); cbn; [reflexivity|].
  destruct p; cbn in *; congruence.
Qed.

Lemma issued_isDown sid cid tmo sfx history n args id st1 pub acts c :
  remotify n args (exec (new sid cid tmo sfx) history) = (id, st1, pub) ->
  forallb (fun a => negb (reports id a)) acts = true ->
  calls (exec st1 acts) !! id = Some c ->
  c_isDown c = Pending.
Proof.
  intros Hrem Hq Hc.
  assert (Hi0 : Inv (exec (new sid cid tmo sfx) history)) by apply exec_inv, new_inv.
  destruct (remotify_fresh _ _ _ _ _ _ Hrem)
    as (_ & _ & Hc1 & _ & _ & _ & _ & Hst1).
  assert (Hi1 : Inv st1) by (rewrite Hst1; now apply perform_inv).
  destruct (exec_isDown acts st1 id _ Hi1 Hc1 Hq) as (c' & Hc' & E).
  cbn in E. congruence.
Qed.

(** The report of the publish, arriving for a call that is still waiting. *)
Lemma report_settles sid cid tmo sfx history n args id st1 pub acts k :
  remotify n args (exec (new sid cid tmo sfx) history) = (id, st1, pub) ->
  forallb (fun a => negb (reports id a)) acts = true ->
  result_of (exec st1 acts) id = Some Pending ->
  exists c c',
    calls (exec st1 acts) !! id = Some c
    /\ tracks (perform (exec st1 acts) (Occur (Published id k))) id c'
         (callbacks (perform (exec st1 acts) (Occur (Published id k))) !! id)
    /\ c_result c'
       = if k =? 0 then Rejected (backend_down_error sid)
         else match c_promise c with
              | Fulfilled v => Fulfilled v
              | _ => Pending
              end.
Proof.
  intros Hrem Hq Hpend.
  destruct (issued_call _ _ _ _ _ _ _ _ _ _ acts Hrem)
    as (c & T & Hn & Ha & Hci & Hid & Hsid).
  rewrite (tracks_result _ _ _ _ T) in Hpend. injection Hpend as Hpend.
  pose proof (issued_isDown _ _ _ _ _ _ _ _ _ _ acts c Hrem Hq (tr_call _ _ _ _ T)) as Hd.
  pose proof (tracks_published _ _ _ _ k T) as T'.
  exists c. eexists. split; [apply T|]. split.
  - split; [apply T'|apply T'|reflexivity].
  - rewrite Hsid. now apply published_on_pending.
Qed.



(** C10: a zero-subscriber report rejects a waiting call with an [Error]
    whose [cause] is ["remotifyBackendDown"], the timer rejects it with the
    plain record of the timeout; the two values differ, and a call that has
    been rejected with one is never given the other: its result stays. *)
Theorem failure_modes_distinguishable sid cid tmo sfx history n args id st1
    pub acts :
  remotify n args (exec (new sid cid tmo sfx) history) = (id, st1, pub) ->
  forallb (fun a => negb (reports id a)) acts = true ->
  result_of (exec st1 acts) id = Some Pending ->
  let down := perform (exec st1 acts) (Occur (Published id 0)) in
  let late := perform (exec st1 acts) (Occur (TimerFired id)) in
  (exists e,
      result_of down id = Some (Rejected e)
      /\ is_Error e = true
      /\ get_prop e "cause" = Normal (VStr "remotifyBackendDown"))
  /\ result_of late id
     = Some (Rejected (VObj [("cause", VStr "timeout"); ("fnname", VStr n);
                             ("args", VArr args); ("message", VStr "Timeout")]))
  /\ (forall e, is_Error e = true -> e <> timeout_rejection n args)
  /\ forall later,
      result_of (exec down later) id = result_of down id
      /\ result_of (exec late later) id = result_of late id.
Proof.
  intros Hrem Hq Hpend. cbv zeta.
  destruct (report_settles _ _ _ _ _ _ _ _ _ _ acts 0 Hrem Hq Hpend)
    as (c & cd & _ & Td & Hd). cbn in Hd.
  destruct (timer_rejects _ _ _ _ _ _ _ _ _ _ acts Hrem Hpend)
    as (cl & Tl & Hl & _).
  rewrite (tracks_result _ _ _ _ Td), (tracks_result _ _ _ _ Tl), Hd, Hl.
  split; [eexists; repeat split|]. split; [reflexivity|].
  split; [intros e He ->; discriminate|].
  intros later. split.
  - rewrite (settled_stays _ _ _ _ later Td); rewrite Hd; [reflexivity|discriminate].
  - rewrite (settled_stays _ _ _ _ later Tl); rewrite Hl; [reflexivity|discriminate].
Qed.

(** C10, an instance. *)
Lemma failure_modes_distinguishable_witness :
  let r := example_call in
  let id := fst (fst r) in
  let down := perform (exec (snd (fst r)) []) (Occur (Published id 0)) in
  let late := perform (exec (snd (fst r)) []) (Occur (TimerFired id)) in
  (exists e,
      result_of down id = Some (Rejected e)
      /\ is_Error e = true
      /\ get_prop e "cause" = Normal (VStr "remotifyBackendDown"))
  /\ result_of late id
     = Some (Rejected (VObj [("cause", VStr "timeout");
                             ("fnname", VStr "Squarer.square");
                             ("args", VArr [VNum 5]);
                             ("message", VStr "Timeout")]))
  /\ (forall e, is_Error e = true ->
                e <> timeout_rejection "Squarer.square" [VNum 5])
  /\ forall later,
      result_of (exec down later) id = result_of down id
      /\ result_of (exec late later) id = result_of late id.
Proof.
  apply (failure_modes_distinguishable "backend" "unnamed" 60000 "0a" []
           "Squarer.square" [VNum 5] (fst (fst example_call))
           (snd (fst example_call)) (snd example_call) []); reflexivity.
Defined.

(** *** Error records *)








(** *** Topics that do not match, payloads that do not parse *)




(** *** Unknown functions *)

Lemma segment_slash_free ns i s :
  split "/" ns !! i = Some s -> slash_free s = true.
Proof.
  intros H. pose proof (split_segments ns) as HF.
  rewrite Forall_forall in HF. apply HF. eapply list_elem_of_lookup_2, H.
Qed.




(** *** Correlation ids *)



(** * Further properties of the code *)

(** ** Objects and their functions *)

Lemma own_get_Some k own m :
  own_get k own = Some m -> existsb (String.eqb k) (map fst own) = true.
Proof.
  induction own as [|[k' m'] r IH]; simpl; [discriminate|].
  rewrite (String.eqb_sym k k'). destruct (String.eqb k' k); simpl; auto.
Qed.

Lemma own_get_None k own :
  own_get k own = None -> existsb (String.eqb k) (map fst own) = false.
Proof.
  induction own as [|[k' m'] r IH]; simpl; [reflexivity|].
  rewrite (String.eqb_sym k k'). destruct (String.eqb k' k); simpl; auto.
  discriminate.
Qed.

Lemma own_names_below o :
  own_names o =
  if below_Object_prototype o
  then own_names o
  else Throw (TypeError "Cannot convert undefined or null to object").
Proof.
  induction o as [| |proto IH own]; simpl; try reflexivity.
  destruct proto; simpl in *; try reflexivity.
  destruct (match proto with Object_prototype _ => true | _ => below_Object_prototype proto end);
    [reflexivity|].
  now rewrite IH.
Qed.

Lemma own_names_Normal o :
  below_Object_prototype o = true ->
  exists props,
    own_names o = Normal props
    /\ forall k, In k props <-> defined_below o k = true.
Proof.
  induction o as [| |proto IH own]; simpl; try discriminate.
  intros H. destruct proto as [| ownp |pp owp].
  - discriminate.
  - exists (map fst own). split; [reflexivity|]. intros k.
    rewrite orb_false_r, existsb_exists. split.
    + intros Hk. exists k. split; [assumption|apply String.eqb_refl].
    + intros (x & Hx & E). apply String.eqb_eq in E. now subst.
  - destruct (IH H) as (rest & -> & Hrest).
    exists (map fst own ++ rest). split; [reflexivity|]. intros k.
    rewrite in_app_iff, orb_true_iff, <- Hrest, existsb_exists. split.
    + intros [Hk|Hk]; [left|now right].
      exists k. split; [assumption|apply String.eqb_refl].
    + intros [(x & Hx & E)|Hk]; [left|now right].
      apply String.eqb_eq in E. now subst.
Qed.

Lemma own_names_Throw o :
  below_Object_prototype o = false ->
  own_names o = Throw (TypeError "Cannot convert undefined or null to object").
Proof. intros H. now rewrite own_names_below, H. Qed.

Lemma getAllRelevantFunctions_In obj names :
  getAllRelevantFunctions obj = Normal names ->
  forall n,
    In n names <->
    n <> "constructor"
    /\ defined_below obj n = true
    /\ exists fn, object_get obj n = Some (Method fn).
Proof.
  unfold getAllRelevantFunctions. intros H n.
  destruct (below_Object_prototype obj) eqn:B.
  2: { rewrite (own_names_Throw _ B) in H. discriminate. }
  destruct (own_names_Normal _ B) as (props & E & Hprops).
  rewrite E in H. cbn in H. injection H as <-.
  rewrite filter_In, Hprops, andb_true_iff, negb_true_iff. split.
  - intros (D & C & T). repeat split; [|assumption|].
    + intros ->. discriminate.
    + destruct (object_get obj n) as [[fn|v]|]; try discriminate. now exists fn.
  - intros (C & D & fn & G). repeat split; [assumption| |].
    + now apply String.eqb_neq.
    + now rewrite G.
Qed.



Lemma bind_method_In obj names m :
  getAllRelevantFunctions obj = Normal names -> In m names ->
  exists fn, object_get obj m = Some (Method fn)
             /\ bind_method obj m = Normal (fn_call fn).
Proof.
  intros H Hm. apply (getAllRelevantFunctions_In _ _ H) in Hm.
  destruct Hm as (_ & _ & fn & G). exists fn. split; [assumption|].
  unfold bind_method. now rewrite G.
Qed.







Lemma own_names_count o props k :
  own_names o = Normal props ->
  count_occ String.string_dec props k = occurrences_below o k.
Proof.
  revert props. induction o as [| |proto IH own]; simpl; try discriminate.
  intros props. destruct proto as [| ownp |pp owp].
  - discriminate.
  - intros [= <-]. simpl. lia.
  - destruct (own_names (Object_create pp owp)) as [rest|] eqn:E; [|discriminate].
    intros [= <-]. rewrite count_occ_app. now rewrite (IH rest eq_refl).
Qed.

Lemma count_occ_filter (p : string -> bool) l k :
  count_occ String.string_dec (List.filter p l) k
  = if p k then count_occ String.string_dec l k else 0%nat.
Proof.
  induction l as [|x r IH]; simpl; [now destruct (p k)|].
  destruct (p x) eqn:Ex; simpl; destruct (String.string_dec x k) as [->|Hne];
    rewrite IH; try rewrite Ex; reflexivity.
Qed.

(** X1: [getAllRelevantFunctions] returns exactly the names that are not
    ["constructor"], are own properties of the object or of a prototype
    below [Object.prototype], and read as a function on the object; a name
    is listed once for each object of the chain that has it as an own
    property, so an overridden method is listed more than once. *)
Theorem relevant_functions_characterised obj names :
  getAllRelevantFunctions obj = Normal names ->
  forall n,
    (In n names <->
     n <> "constructor"
     /\ defined_below obj n = true
     /\ exists fn, object_get obj n = Some (Method fn))
    /\ count_occ String.string_dec names n
       = if negb (String.eqb n "constructor")
            && typeof_function (object_get obj n)
         then occurrences_below obj n
         else 0%nat.
Proof.
  intros H n. split; [now apply getAllRelevantFunctions_In|].
  unfold getAllRelevantFunctions in H.
  destruct (own_names obj) as [props|] eqn:E; [|discriminate].
  cbn in H. injection H as <-.
  now rewrite count_occ_filter, (own_names_count _ _ _ E).
Qed.

(** X1, an instance: of an instance of [Squarer], [square] is listed, once. *)
Lemma relevant_functions_characterised_witness :
  (In "square" ["square"] <->
   "square" <> "constructor"
   /\ defined_below squarer "square" = true
   /\ exists fn, object_get squarer "square" = Some (Method fn))
  /\ count_occ String.string_dec ["square"] "square" = 1%nat.
Proof.
  apply (relevant_functions_characterised squarer ["square"]). reflexivity.
Defined.



(** ** Registration *)



(** X4: [listen(fn)], the name left to default to [fn.name], subscribes to
    the call topic of that name; a message whose name segment is another
    gets the answer it got before; a call of that name is answered with the
    outcome of [fn], whatever was registered under the name before. *)
Theorem listen_affects_one_name (L : Listen.t) (fn : func) :
  let L' := Listen.listen_function fn None L in
  Listen.subscribed L'
  = Listen.subscribed L ++ [call_topic (Listen.serverid L) (fn_name fn)]
  /\ (forall ns str,
         split "/" ns !! 4%nat <> Some (fn_name fn) ->
         snd (Listen.onCall L' ns str) = snd (Listen.onCall L ns str))
  /\ (forall clientid id args str,
         slash_free (Listen.serverid L) = true ->
         slash_free (fn_name fn) = true ->
         JSON_parse str = Some (Call_message clientid id args) ->
         Listen.onCall L' (call_topic (Listen.serverid L) (fn_name fn)) str
         = (L', Normal (Some (callback_topic (Listen.serverid L) clientid,
                              JSON_stringify (Listen.config_jsonReplacer L)
                                (Listen.Callback
                                   (call_topic (Listen.serverid L) (fn_name fn))
                                   (VNum id)
                                   (outcome_flag (fn_call fn args))
                                   (outcome_value (fn_call fn args))))))).
Proof.
  cbv zeta. split; [reflexivity|]. split.
  - intros ns str Hne. unfold Listen.onCall, Listen.listen_function, Listen.listen.
    cbn [Listen.serverid Listen.fns Listen.config_jsonReplacer default].
    case_negated_guards.
    destruct (split "/" ns !! 4%nat) as [k|]; [|reflexivity].
    cbn [mbind option_bind]. rewrite lookup_insert_ne by congruence.
    reflexivity.
  - intros clientid id args str Hsid Hn Hstr.
    apply (listener_replies (Listen.listen_function fn None L)); try assumption.
    cbn. apply lookup_insert_eq.
Qed.

(** X4, an instance: [square] registered on a fresh listener. *)
Lemma listen_affects_one_name_witness :
  let fn := {| fn_name := "square"; fn_call := square |} in
  let L' := Listen.listen_function fn None (Listen.new "backend") in
  snd (Listen.onCall L' "/remotify/backend/call/cube"
         (dq "{'clientid':'unnamed_0a','callback':1,'arguments':[5]}"))
  = snd (Listen.onCall (Listen.new "backend") "/remotify/backend/call/cube"
           (dq "{'clientid':'unnamed_0a','callback':1,'arguments':[5]}"))
  /\ Listen.onCall L' (call_topic "backend" "square")
       (dq "{'clientid':'unnamed_0a','callback':1,'arguments':[5]}")
     = (L', Normal (Some (callback_topic "backend" "unnamed_0a",
                          JSON_stringify jsonReplacer
                            (Listen.Callback (call_topic "backend" "square")
                               (VNum 1) true (VNum 25))))).
Proof.
  destruct (listen_affects_one_name (Listen.new "backend")
              {| fn_name := "square"; fn_call := square |})
    as (_ & H1 & H2).
  split.
  - apply H1. discriminate.
  - apply (H2 "unnamed_0a" 1 [VNum 5]); reflexivity.
Defined.

(** ** Stubs for many functions *)



Lemma obj_has_existsb k o :
  obj_has k o = existsb (String.eqb k) (map fst o).
Proof.
  induction o as [|[k' v] r IH]; simpl; [reflexivity|].
  now rewrite IH, String.eqb_sym.
Qed.



(** ** Whole calls through objects and functions *)





(** ** Values on the wire *)













(** X9: a call message of a registered function whose [arguments] cannot be
    spread (it is missing, or no array and no string) is answered: [onCall]
    returns normally, the handler plays no part, and the reply carries the
    id of the call, [success] false and, as [result], the record of the
    [TypeError]. *)
Theorem call_without_arguments (L : Listen.t) ns fnname f str data cb clientid
    arguments e :
  seg_is (split "/" ns !! 1%nat) "remotify" = true ->
  seg_is (split "/" ns !! 2%nat) (Listen.serverid L) = true ->
  seg_is (split "/" ns !! 3%nat) "call" = true ->
  split "/" ns !! 4%nat = Some fnname ->
  Listen.fns L !! fnname = Some f ->
  Listen.config_jsonReplacer L = jsonReplacer ->
  JSON_parse str = Some data ->
  get_prop data "callback" = Normal cb ->
  serializable cb = true ->
  get_prop data "arguments" = Normal arguments ->
  spread arguments = Throw e ->
  get_prop data "clientid" = Normal clientid ->
  exists reply rdata record,
    Listen.onCall L ns str
    = (L, Normal (Some (callback_topic (Listen.serverid L) (to_string clientid),
                        Some reply)))
    /\ JSON_parse reply = Some rdata
    /\ get_prop rdata "callback" = Normal cb
    /\ get_prop rdata "success" = Normal (VBool false)
    /\ get_prop rdata "result" = Normal record
    /\ record = jsonReplacer "" e
    /\ get_prop record "name" = Normal (VStr "TypeError").
Proof.
  intros G1 G2 G3 G4 Hf Hcfg Hstr Hcb Hser Harg Hsp Hcid.
  assert (He : e = TypeError (to_string arguments +:+ " is not iterable")).
  { unfold spread in Hsp. destruct arguments; try discriminate; congruence. }
  destruct (reply_on_the_wire ns cb false e Hser)
    as (reply & rdata & Hr & Hp & Hk & Hs & Hres).
  { subst e. reflexivity. }
  exists reply, rdata, (jsonReplacer "" e).
  split; [|split; [exact Hp|split; [exact Hk|split; [exact Hs|split; [exact Hres|]]]]].
  - unfold Listen.onCall. cbv zeta. rewrite G1, G2, G3, G4. cbn [negb].
    unfold JSON_parse_c. rewrite Hstr. cbn [mbind completion_bind option_bind].
    rewrite Hf, Hcb. cbn [mbind completion_bind]. rewrite Harg.
    cbn [mbind completion_bind]. rewrite Hsp. cbn [mbind completion_bind].
    rewrite Hcid. cbn [mbind completion_bind]. now rewrite Hcfg, Hr.
  - subst e. split; reflexivity.
Qed.

(** X9, an instance: a message without [arguments]. *)
Lemma call_without_arguments_witness :
  exists reply rdata record,
    Listen.onCall example_listener "/remotify/backend/call/Squarer.square"
      (dq "{'clientid':'unnamed_0a','callback':1}")
    = (example_listener,
       Normal (Some (callback_topic "backend" "unnamed_0a", Some reply)))
    /\ JSON_parse reply = Some rdata
    /\ get_prop rdata "callback" = Normal (VNum 1)
    /\ get_prop rdata "success" = Normal (VBool false)
    /\ get_prop rdata "result" = Normal record
    /\ record = jsonReplacer "" (TypeError "undefined is not iterable")
    /\ get_prop record "name" = Normal (VStr "TypeError").
Proof.
  apply (call_without_arguments example_listener
           "/remotify/backend/call/Squarer.square" "Squarer.square" square
           (dq "{'clientid':'unnamed_0a','callback':1}")
           (VObj [("clientid", VStr "unnamed_0a"); ("callback", VNum 1)])
           (VNum 1) (VStr "unnamed_0a") VUndefined
           (TypeError "undefined is not iterable")); reflexivity.
Defined.

(** *** Replies on the wire *)

Lemma reply_image_defined v : is_undefined (reply_image v) = false.
Proof. now destruct v. Qed.



















(** ** Events *)




(** ** Topics among the roles *)

Lemma seg_is_slash ns i s :
  slash_free s = false -> seg_is (split "/" ns !! i) s = false.
Proof.
  intros H. destruct (split "/" ns !! i) as [x|] eqn:E; [|reflexivity].
  simpl. destruct (String.eqb_spec x s) as [->|]; [|reflexivity].
  apply segment_slash_free in E. congruence.
Qed.

Lemma split_event_topic_head ns :
  exists rest, split "/" (event_topic ns) = "" :: "remotifyEvent" :: rest.
Proof.
  unfold event_topic.
  change ("/remotifyEvent/" +:+ ns)
    with ("" +:+ String "/" ("remotifyEvent" +:+ String "/" ns)).
  rewrite !split_segment by reflexivity. eauto.
Qed.

(** X11: on a connection the roles share, a message of one kind is ignored
    by the handlers of the other two: a call (of a server id without ["/"])
    by [onCallback] and [onEvent], a reply by [onCall] and [onEvent], an
    event by [onCall] and [onCallback]. *)
Theorem roles_do_not_cross_talk (L : Listen.t) (R : Remotify.t)
    (S : RedisEventSubscriber.t) (sid name clientid ns str : string) :
  slash_free sid = true ->
  onCallback R (call_topic sid name) str = (R, Normal tt)
  /\ RedisEventSubscriber.onEvent S (call_topic sid name) str = (S, Normal None)
  /\ Listen.onCall L (callback_topic sid clientid) str = (L, Normal None)
  /\ RedisEventSubscriber.onEvent S (callback_topic sid clientid) str
     = (S, Normal None)
  /\ Listen.onCall L (event_topic ns) str = (L, Normal None)
  /\ onCallback R (event_topic ns) str = (R, Normal tt).
Proof.
  intros H. destruct (split_event_topic_head ns) as (rest & E).
  unfold onCallback, RedisEventSubscriber.onEvent, Listen.onCall.
  rewrite split_call_topic, split_callback_topic, E by assumption.
  cbn [lookup list_lookup]. cbn [seg_is String.eqb Ascii.eqb Bool.eqb negb].
  repeat split.
  - now destruct (String.eqb sid (serverid R)).
  - now destruct (String.eqb sid (Listen.serverid L)).
Qed.

(** X11, an instance: a caller ignores a call, a listener a reply. *)
Lemma roles_do_not_cross_talk_witness :
  onCallback (snd (fst example_call)) (call_topic "backend" "Squarer.square")
    (dq "{'clientid':'unnamed_0a','callback':1,'arguments':[5]}")
  = (snd (fst example_call), Normal tt)
  /\ Listen.onCall example_listener (callback_topic "backend" "unnamed_0a")
       (dq "{'method':'m','callback':1,'success':true,'result':25}")
     = (example_listener, Normal None).
Proof.
  destruct (roles_do_not_cross_talk example_listener (snd (fst example_call))
              example_subscriber "backend" "Squarer.square" "unnamed_0a" "news"
              (dq "{'clientid':'unnamed_0a','callback':1,'arguments':[5]}"))
    as (H1 & _); [reflexivity|].
  destruct (roles_do_not_cross_talk example_listener (snd (fst example_call))
              example_subscriber "backend" "Squarer.square" "unnamed_0a" "news"
              (dq "{'method':'m','callback':1,'success':true,'result':25}"))
    as (_ & _ & H3 & _); [reflexivity|].
  split; assumption.
Defined.

(** ** Replies and acknowledgements *)

Lemma tracks_isDown st id c cb p :
  tracks st id c cb ->
  tracks (update id (fun c => set_isDown c (settle (c_isDown c) p)) st) id
    (finish (set_isDown c (settle (c_isDown c) p)))
    (if times_out (reacted (set_isDown c (settle (c_isDown c) p)))
     then None else cb).
Proof.
  intros H.
  apply (tracks_update st id c cb
           (fun c => set_isDown c (settle (c_isDown c) p)) H).
  - apply settler_isDown.
  - intros c'. now destruct c'.
Qed.

(** X12: a successful reply that arrives before the report of the publish
    removes the registry entry and leaves the call pending.  What follows
    decides: a report of a subscriber fulfils the call with the result of
    the reply; a report of none, or a failure of the publish, rejects it,
    the reply notwithstanding; so does the timer. *)
Theorem reply_waits_for_publish sid cid tmo sfx history n args id st1 pub quiet
    anyone str data success result :
  slash_free sid = true ->
  remotify n args (exec (new sid cid tmo sfx) history) = (id, st1, pub) ->
  forallb (fun a => negb (concerns id a)) quiet = true ->
  JSON_parse str = Some data ->
  get_prop data "callback" = Normal (VNum id) ->
  get_prop data "success" = Normal success ->
  truthy success = true ->
  get_prop data "result" = Normal result ->
  let st2 :=
    perform (exec st1 quiet) (Occur (Message (callback_topic sid anyone) str)) in
  result_of st2 id = Some Pending
  /\ callbacks st2 !! id = None
  /\ (forall k,
         k <> 0 ->
         result_of (perform st2 (Occur (Published id k))) id
         = Some (Fulfilled result))
  /\ result_of (perform st2 (Occur (Published id 0))) id
     = Some (Rejected (backend_down_error sid))
  /\ (forall err,
         result_of (perform st2 (Occur (PublishFailed id err))) id
         = Some (Rejected err))
  /\ result_of (perform st2 (Occur (TimerFired id))) id
     = Some (Rejected (timeout_rejection n args)).
Proof.
  intros Hsid Hrem Hq Hstr Hk Hs Ht Hr st2.
  set (st0 := exec (new sid cid tmo sfx) history) in *.
  assert (Hi0 : Inv st0) by (apply exec_inv, new_inv).
  assert (Hs0 : serverid st0 = sid) by (unfold st0; now rewrite exec_serverid).
  destruct (remotify_fresh _ _ _ _ _ _ Hrem)
    as (_ & _ & Hc1 & Hcb1 & Hs1 & _ & _ & Hst1).
  assert (T1 : tracks st1 id (fresh_call n args) (Some {| pc_id := id |})).
  { split; [rewrite Hst1; now apply perform_inv|assumption|assumption]. }
  pose proof (tracks_quiet _ _ _ _ quiet T1 Hq) as T2.
  assert (Hsq : serverid (exec st1 quiet) = sid)
    by (now rewrite exec_serverid, Hs1).
  pose proof (tracks_reply _ _ _ _ anyone str data success result T2) as T3.
  rewrite Hsq in T3. specialize (T3 Hsid Hstr Hk Hs Hr).
  rewrite Ht in T3. fold st2 in T3.
  assert (T3' : tracks st2 id
                  (set_promise (fresh_call n args) (Fulfilled result)) None)
    by exact T3.
  clear T3. rename T3' into T3.
  assert (Hs2 : serverid st2 = sid).
  { unfold st2. now rewrite perform_serverid. }
  split; [now rewrite (tracks_result _ _ _ _ T3)|].
  split; [now destruct T3|].
  split; [|split; [|split]].
  - intros k Hk0. apply Z.eqb_neq in Hk0.
    pose proof (tracks_published _ _ _ _ k T3) as T4. rewrite Hk0 in T4.
    now rewrite (tracks_result _ _ _ _ T4).
  - pose proof (tracks_published _ _ _ _ 0 T3) as T4.
    rewrite (tracks_result _ _ _ _ T4), Hs2. reflexivity.
  - intros err.
    pose proof (tracks_isDown _ _ _ _ (Rejected err) T3) as T4.
    change (perform st2 (Occur (PublishFailed id err)))
      with (update id (fun c => set_isDown c (settle (c_isDown c) (Rejected err))) st2).
    now rewrite (tracks_result _ _ _ _ T4).
  - pose proof (tracks_timer _ _ _ _ T3) as T4.
    now rewrite (tracks_result _ _ _ _ T4).
Qed.

(** X12, an instance: the reply 25 to the first call of [Squarer.square]. *)
Lemma reply_waits_for_publish_witness :
  let id := fst (fst example_call) in
  let st2 :=
    perform (exec (snd (fst example_call)) [])
      (Occur (Message (callback_topic "backend" "unnamed_0a")
                (dq "{'method':'m','callback':1,'success':true,'result':25}"))) in
  result_of st2 id = Some Pending
  /\ callbacks st2 !! id = None
  /\ (forall k,
         k <> 0 ->
         result_of (perform st2 (Occur (Published id k))) id
         = Some (Fulfilled (VNum 25)))
  /\ result_of (perform st2 (Occur (Published id 0))) id
     = Some (Rejected (backend_down_error "backend"))
  /\ (forall err,
         result_of (perform st2 (Occur (PublishFailed id err))) id
         = Some (Rejected err))
  /\ result_of (perform st2 (Occur (TimerFired id))) id
     = Some (Rejected (timeout_rejection "Squarer.square" [VNum 5])).
Proof.
  apply (reply_waits_for_publish "backend" "unnamed" 60000 "0a" []
           "Squarer.square" [VNum 5] (fst (fst example_call))
           (snd (fst example_call)) (snd example_call) [] "unnamed_0a"
           (dq "{'method':'m','callback':1,'success':true,'result':25}")
           (VObj [("method", VStr "m"); ("callback", VNum 1);
                  ("success", VBool true); ("result", VNum 25)])
           (VBool true) (VNum 25)); reflexivity.
Defined.

(** ** Calls side by side *)








(** ** The registry *)

Lemma awaited_finish (x : Call) :
  (c_race x = Pending -> c_result x = Pending) ->
  awaited (finish x) = negb (times_out (reacted x)) && awaited x.
Proof.
  destruct x as [fn ar p d al sl ra re]. cbn [c_race c_result].
  destruct ra as [|[v|]|e].
  - intros ->; [|reflexivity].
    destruct p, d, al, sl as [|[]|]; reflexivity.
  - intros _. destruct p, re; reflexivity.
  - intros _. destruct p, re; reflexivity.
  - intros _. destruct p, re; reflexivity.
Qed.

Lemma update_registry id f st :
  Inv st -> registry_exact st -> settler f ->
  (forall c, c_promise (f c) = c_promise c) ->
  registry_exact (update id f st).
Proof.
  intros Hi Hr Hf Hp j c' Hc'.
  destruct (decide (j = id)) as [->|Hne].
  - destruct (calls st !! id) as [c|] eqn:E.
    + destruct (update_at id f st c E) as [Ec Ecb].
      rewrite Ec in Hc'. injection Hc' as <-. rewrite Ecb, (Hr _ _ E).
      destruct (inv_calls _ Hi _ _ E) as [_ (Hci & _)].
      destruct (Hf c) as (_ & _ & _ & Hra & Hre).
      rewrite awaited_finish.
      * assert (Ea : awaited (f c) = awaited c).
        { unfold awaited. now rewrite Hp, Hra. }
        rewrite Ea. now destruct (times_out _), (awaited c).
      * rewrite Hra, Hre. intros H.
        destruct (inv_calls _ Hi _ _ E) as [_ (_ & H2 & _)]. now apply H2.
    + rewrite update_absent in * by assumption. congruence.
  - destruct (update_other id f st j Hne) as [Ec Ecb].
    rewrite Ec in Hc'. rewrite Ecb. now apply Hr.
Qed.

Lemma cb_settle_registry pc p st :
  Inv st -> registry_exact st -> p <> Pending ->
  is_Some (callbacks st !! pc_id pc) ->
  registry_exact
    (update (pc_id pc) (fun c => set_promise c (settle (c_promise c) p))
       (with_callbacks (delete (pc_id pc) (callbacks st)) st)).
Proof.
  intros Hi Hr Hp [pc' Hpc] j c' Hc'.
  destruct (inv_callbacks _ Hi _ _ Hpc) as [_ (c & Hc & Hpend)].
  rewrite (cb_settle_calls pc p st c Hc) in Hc'.
  rewrite cb_settle_callbacks.
  destruct (decide (j = pc_id pc)) as [->|Hne].
  - rewrite lookup_insert_eq in Hc'. injection Hc' as <-.
    rewrite Hpend. unfold awaited.
    destruct (finish_fields (set_promise c (settle Pending p)))
      as (_ & _ & -> & _).
    destruct c; cbn. now destruct p.
  - rewrite lookup_insert_ne in Hc' by congruence. now apply Hr.
Qed.

Lemma onCallback_registry st ns str :
  Inv st -> registry_exact st -> registry_exact (fst (onCallback st ns str)).
Proof.
  intros Hi Hr. unfold onCallback.
  destruct (negb (seg_is _ "remotify")); [exact Hr|].
  destruct (negb (seg_is _ (serverid st))); [exact Hr|].
  destruct (negb (seg_is _ "callback")); [exact Hr|].
  destruct (JSON_parse_c str) as [data|]; [|exact Hr].
  destruct (get_prop data "callback") as [key|]; [|exact Hr].
  destruct (callbacks_get st key) as [pc|] eqn:E; [|exact Hr].
  match goal with
  | |- context [match ?x with _ => _ end] => destruct x as [[success result]|]
  end; [|exact Hr].
  cbn [fst].
  assert (Hpc : is_Some (callbacks st !! pc_id pc)).
  { destruct key; try discriminate. cbn in E.
    destruct (inv_callbacks _ Hi _ _ E) as [-> _]. now exists pc. }
  destruct (truthy success); unfold cb_resolve, cb_reject; cbv zeta;
    now apply cb_settle_registry.
Qed.

Lemma remotify_registry fnname args st :
  Inv st -> registry_exact st ->
  registry_exact (snd (fst (remotify fnname args st))).
Proof.
  intros Hi Hr j c'. unfold remotify, addCallback. cbn.
  destruct (decide (j = cbCounter st + 1)) as [->|Hne].
  - rewrite !lookup_insert_eq. now intros [= <-].
  - rewrite !lookup_insert_ne by congruence. apply Hr.
Qed.

Lemma perform_registry st a :
  Inv st -> registry_exact st -> registry_exact (perform st a).
Proof.
  intros Hi Hr. destruct a as [fnname args|[i k|i err|ns str|i]].
  - now apply remotify_registry.
  - cbn [perform step fst]. unfold on_published.
    apply update_registry; auto using settler_isDown; intros c; now destruct c.
  - cbn [perform step fst]. unfold on_publish_failed.
    apply update_registry; auto using settler_isDown; intros c; now destruct c.
  - now apply onCallback_registry.
  - cbn [perform step fst]. unfold on_timer.
    apply update_registry; auto using settler_sleep; intros c; now destruct c.
Qed.

Lemma exec_registry acts st :
  Inv st -> registry_exact st -> registry_exact (exec st acts).
Proof.
  revert st. induction acts as [|a r IH]; intros st Hi Hr; [exact Hr|].
  rewrite exec_cons. apply IH; [now apply perform_inv|now apply perform_registry].
Qed.

(** X14: in every state a caller reaches, the registry holds under an id
    the entry made for it exactly when the call of that id was issued, no
    reply to it was accepted, and the branch of the timeout has not run. *)
Theorem registry_holds_awaited_calls sid cid tmo sfx acts id :
  let st := exec (new sid cid tmo sfx) acts in
  callbacks st !! id
  = match calls st !! id with
    | Some c => if awaited c then Some {| pc_id := id |} else None
    | None => None
    end.
Proof.
  intros st.
  assert (Hi : Inv st) by apply exec_inv, new_inv.
  assert (Hr : registry_exact st).
  { apply exec_registry; [apply new_inv|]. intros j c. cbn.
    now rewrite lookup_empty. }
  destruct (calls st !! id) as [c|] eqn:E; [now apply Hr|].
  destruct (callbacks st !! id) as [pc|] eqn:Ecb; [|reflexivity].
  destruct (inv_callbacks _ Hi _ _ Ecb) as [_ (c & Hc & _)]. congruence.
Qed.

(** ** What a settled call is owed to *)

Lemma all_of_Fulfilled x v :
  all_of x = Fulfilled v ->
  c_all x = Fulfilled v
  \/ exists a b, v = VArr [a; b] /\ c_isDown x = Fulfilled a
                 /\ c_promise x = Fulfilled b.
Proof.
  unfold all_of. destruct (c_all x); [|now left|discriminate].
  destruct (c_isDown x), (c_promise x); try discriminate.
  intros [= <-]. right. eauto.
Qed.

Lemma all_of_Rejected x e :
  all_of x = Rejected e ->
  c_all x = Rejected e \/ c_isDown x = Rejected e \/ c_promise x = Rejected e.
Proof.
  unfold all_of. destruct (c_all x); [|discriminate|now left].
  destruct (c_isDown x), (c_promise x); try discriminate;
    intros [= <-]; auto.
Qed.

Lemma all_of_settled x : c_all x <> Pending -> all_of x = c_all x.
Proof. unfold all_of. now destruct (c_all x). Qed.

Lemma race_of_Fulfilled x r :
  race_of x = Fulfilled r ->
  c_race x = Fulfilled r
  \/ c_all x = Fulfilled (match r with Replied v => v | timedout => VUndefined end)
     /\ (exists v, r = Replied v)
  \/ c_sleep x = Fulfilled r.
Proof.
  unfold race_of. destruct (c_race x); [|now left|discriminate].
  destruct (c_all x); [|intros [= <-]; right; left; eauto|discriminate].
  destruct (c_sleep x); try discriminate. intros [= ->]. now right; right.
Qed.

Lemma race_of_Rejected x e :
  race_of x = Rejected e ->
  c_race x = Rejected e \/ c_all x = Rejected e \/ c_sleep x = Rejected e.
Proof.
  unfold race_of. destruct (c_race x); [|discriminate|now left].
  destruct (c_all x); [|discriminate|intros [= <-]; auto].
  destruct (c_sleep x); try discriminate. intros [= ->]. auto.
Qed.

Lemma race_of_settled x : c_race x <> Pending -> race_of x = c_race x.
Proof. unfold race_of. now destruct (c_race x). Qed.

Lemma result_after_Fulfilled x v :
  result_after x = Fulfilled v ->
  c_result x = Fulfilled v
  \/ exists w, c_race x = Fulfilled (Replied w) /\ v = index w 1.
Proof.
  unfold result_after. destruct (c_result x); [|now left|discriminate].
  destruct (c_race x) as [|[w|]|e]; try discriminate.
  intros [= <-]. right. eauto.
Qed.

Lemma result_after_Rejected x e :
  result_after x = Rejected e ->
  c_result x = Rejected e
  \/ c_race x = Rejected e
  \/ (c_race x = Fulfilled timedout
      /\ e = timeout_rejection (c_fnname x) (c_args x)).
Proof.
  unfold result_after. destruct (c_result x); [|discriminate|now left].
  destruct (c_race x) as [|[w|]|e']; try discriminate; intros [= <-]; auto.
Qed.

Lemma finish_reactions x :
  c_all (finish x) = all_of x
  /\ c_race (finish x) = race_of (set_all x (all_of x))
  /\ c_result (finish x) = result_after (reacted x)
  /\ c_race (reacted x) = race_of (set_all x (all_of x))
  /\ c_result (reacted x) = c_result x
  /\ c_fnname (reacted x) = c_fnname x
  /\ c_args (reacted x) = c_args x
  /\ c_race (set_all x (all_of x)) = c_race x
  /\ c_all (set_all x (all_of x)) = all_of x
  /\ c_sleep (set_all x (all_of x)) = c_sleep x.
Proof. now destruct x. Qed.

Lemma grounded_finish (x : Call) : grounded x -> grounded (finish x).
Proof.
  intros [G1 G2 G3 G4 G5 G6 G7 G8].
  destruct (finish_fields x) as (En & Ear & Ep & Ed & Esl).
  destruct (finish_reactions x)
    as (Ea & Er & Es & Err & Ers & Efn & Eargs & Era & Eaa & Esa).
  assert (A1 : forall v, all_of x = Fulfilled v ->
                         exists a b, v = VArr [a; b]
                                     /\ c_isDown x = Fulfilled a
                                     /\ c_promise x = Fulfilled b).
  { intros v E. apply all_of_Fulfilled in E as [E|E]; auto. }
  assert (A2 : forall e, all_of x = Rejected e ->
                         c_isDown x = Rejected e \/ c_promise x = Rejected e).
  { intros e E. apply all_of_Rejected in E as [E|E]; auto. }
  assert (R1 : forall v, race_of (set_all x (all_of x)) = Fulfilled (Replied v) ->
                         all_of x = Fulfilled v).
  { intros v E. apply race_of_Fulfilled in E as [E|[[E _]|E]].
    - rewrite Era in E. specialize (G4 v E). rewrite all_of_settled; congruence.
    - now rewrite Eaa in E.
    - rewrite Esa in E. destruct G3; congruence. }
  assert (R2 : race_of (set_all x (all_of x)) = Fulfilled timedout ->
               c_sleep x = Fulfilled timedout).
  { intros E. apply race_of_Fulfilled in E as [E|[[_ [v E]]|E]].
    - rewrite Era in E. auto.
    - discriminate.
    - now rewrite Esa in E. }
  assert (R3 : forall e, race_of (set_all x (all_of x)) = Rejected e ->
                         all_of x = Rejected e).
  { intros e E. apply race_of_Rejected in E as [E|[E|E]].
    - rewrite Era in E. specialize (G6 e E). rewrite all_of_settled; congruence.
    - now rewrite Eaa in E.
    - rewrite Esa in E. destruct G3; congruence. }
  split; rewrite ?Ea, ?Er, ?Es, ?Ep, ?Ed, ?Esl, ?En, ?Ear; try assumption.
  - intros v E. apply result_after_Fulfilled in E as [E|E].
    + rewrite Ers in E. destruct (G7 v E) as (w & Hw & ->).
      exists w. split; [|reflexivity].
      rewrite race_of_settled; rewrite Era; congruence.
    + now rewrite Err in E.
  - intros e E. apply result_after_Rejected in E as [E|E].
    + rewrite Ers in E.
      destruct (G8 e E) as [Hr|[Hr ->]]; [left|right; split; [|reflexivity]];
        rewrite race_of_settled; rewrite Era; congruence.
    + rewrite Err, Efn, Eargs in E. exact E.
Qed.

Lemma grounded_fresh fnname args : grounded (fresh_call fnname args).
Proof. split; cbn; intros; try discriminate. now left. Qed.

Lemma grounded_promise c p :
  grounded c -> grounded (set_promise c (settle (c_promise c) p)).
Proof.
  destruct c as [fn ar pr d al sl ra re]. intros [G1 G2 G3 G4 G5 G6 G7 G8].
  cbn in *. split; cbn; try assumption.
  - intros v E. destruct (G1 v E) as (a & b & -> & -> & ->). eauto.
  - intros e E. destruct (G2 e E) as [->| ->]; auto.
Qed.

Lemma grounded_isDown c p :
  grounded c -> grounded (set_isDown c (settle (c_isDown c) p)).
Proof.
  destruct c as [fn ar pr d al sl ra re]. intros [G1 G2 G3 G4 G5 G6 G7 G8].
  cbn in *. split; cbn; try assumption.
  - intros v E. destruct (G1 v E) as (a & b & -> & -> & ->). eauto.
  - intros e E. destruct (G2 e E) as [->| ->]; auto.
Qed.

Lemma grounded_sleep c :
  grounded c -> grounded (set_sleep c (settle (c_sleep c) (Fulfilled timedout))).
Proof.
  destruct c as [fn ar pr d al sl ra re]. intros [G1 G2 G3 G4 G5 G6 G7 G8].
  cbn in *. split; cbn; try assumption.
  - destruct G3 as [->| ->]; auto.
  - intros E. rewrite (G5 E). reflexivity.
Qed.

Lemma answered_past sid id past past' c :
  answered sid id past c -> (forall a, In a past -> In a past') ->
  answered sid id past' c.
Proof.
  intros [Hg H1 H2 H3 H4 H5] Hin. split; [assumption|..].
  - intros v E. destruct (H1 v E) as (a & Ha & Hr). eauto.
  - intros e E. destruct (H2 e E) as (a & Ha & Hr). eauto.
  - intros x E. destruct (H3 x E) as (k & Hk & Ha). eauto.
  - intros e E. destruct (H4 e E) as [[-> Ha]|Ha]; auto.
  - auto.
Qed.

Lemma answered_finish sid id past c :
  answered sid id past c -> answered sid id past (finish c).
Proof.
  intros [Hg H1 H2 H3 H4 H5].
  destruct (finish_fields c) as (_ & _ & Ep & Ed & Esl).
  split; rewrite ?Ep, ?Ed, ?Esl; try assumption. now apply grounded_finish.
Qed.

Lemma answered_fresh sid id past fnname args :
  answered sid id past (fresh_call fnname args).
Proof. split; [apply grounded_fresh|..]; cbn; intros; discriminate. Qed.

Lemma update_owed id past j f st :
  owed id past st ->
  (j = id ->
   forall c, answered (serverid st) id past c ->
             answered (serverid st) id past (f c)) ->
  owed id past (update j f st).
Proof.
  intros H Hf c' Hc'. rewrite update_serverid.
  destruct (decide (id = j)) as [<-|Hne].
  - destruct (calls st !! id) as [c|] eqn:E.
    + destruct (update_at id f st c E) as [Ec _].
      rewrite Ec in Hc'. injection Hc' as <-.
      apply answered_finish, (Hf eq_refl), H, E.
    + rewrite update_absent in Hc' by assumption. congruence.
  - destruct (update_other j f st id Hne) as [Ec _].
    rewrite Ec in Hc'. now apply H.
Qed.

Lemma owed_past id past past' st :
  owed id past st -> (forall a, In a past -> In a past') -> owed id past' st.
Proof. intros H Hin c Hc. apply (answered_past _ _ past); auto. Qed.

Lemma In_last {A} (l : list A) (a : A) : In a (l ++ [a]).
Proof. apply in_or_app. right. now left. Qed.

Lemma onCallback_owed id past st ns str :
  Inv st -> owed id past st ->
  owed id (past ++ [Occur (Message ns str)]) (fst (onCallback st ns str)).
Proof.
  intros Hi H.
  assert (H' : owed id (past ++ [Occur (Message ns str)]) st).
  { apply (owed_past _ past); [assumption|]. intros a Ha.
    apply in_or_app. now left. }
  unfold onCallback.
  destruct (seg_is _ "remotify") eqn:G1; [|exact H'].
  destruct (seg_is _ (serverid st)) eqn:G2; [|exact H'].
  destruct (seg_is _ "callback") eqn:G3; [|exact H'].
  cbn [negb]. unfold JSON_parse_c.
  destruct (JSON_parse str) as [data|] eqn:Ed; [|exact H'].
  destruct (get_prop data "callback") as [key|] eqn:Ek; [|exact H'].
  destruct (callbacks_get st key) as [pc|] eqn:E; [|exact H'].
  destruct (get_prop data "success") as [success|] eqn:Es; [|exact H'].
  destruct (get_prop data "result") as [result|] eqn:Er; [|exact H'].
  cbn [mbind completion_bind fst].
  destruct key; try discriminate. cbn in E.
  destruct (inv_callbacks _ Hi _ _ E) as [Hid _]. subst n.
  assert (Hst : owed id (past ++ [Occur (Message ns str)])
                  (with_callbacks (delete (pc_id pc) (callbacks st)) st))
    by exact H'.
  assert (Hrep : pc_id pc = id ->
                 accepted_reply (serverid st) id (truthy success) result
                   (Occur (Message ns str))).
  { intros <-. exists ns, str, data, success. repeat split; assumption. }
  destruct (truthy success) eqn:Et; unfold cb_resolve, cb_reject; cbv zeta;
    (apply update_owed; [exact Hst|]);
    intros Hj c [Hg H1 H2 H3 H4 H5]; cbn [serverid with_callbacks] in *;
    (split; [now apply grounded_promise|..]);
    try (destruct c as [fn ar pr d al sl ra re]; cbn in *; assumption).
  - intros v. destruct c as [fn ar pr d al sl ra re]; cbn in *.
    destruct pr; cbn; [|apply H1|discriminate].
    intros [= <-]. exists (Occur (Message ns str)). split; [apply In_last|auto].
  - intros e. destruct c as [fn ar pr d al sl ra re]; cbn in *.
    destruct pr; cbn; [discriminate|discriminate|apply H2].
  - intros v. destruct c as [fn ar pr d al sl ra re]; cbn in *.
    destruct pr; cbn; [discriminate|apply H1|discriminate].
  - intros e. destruct c as [fn ar pr d al sl ra re]; cbn in *.
    destruct pr; cbn; [|discriminate|apply H2].
    intros [= <-]. exists (Occur (Message ns str)). split; [apply In_last|auto].
Qed.

Lemma perform_owed id past st a :
  Inv st -> owed id past st -> owed id (past ++ [a]) (perform st a).
Proof.
  intros Hi H.
  assert (H' : owed id (past ++ [a]) st).
  { apply (owed_past _ past); [assumption|]. intros b Hb.
    apply in_or_app. now left. }
  destruct a as [fnname args|[i k|i err|ns str|i]].
  - intros c'. unfold remotify, addCallback. cbn.
    destruct (decide (id = cbCounter st + 1)) as [->|Hne].
    + rewrite lookup_insert_eq. intros [= <-]. apply answered_fresh.
    + rewrite lookup_insert_ne by congruence. apply H'.
  - cbn [perform step fst]. unfold on_published.
    apply update_owed; [exact H'|]. intros -> c [Hg H1 H2 H3 H4 H5].
    split; [now apply grounded_isDown|..];
      destruct c as [fn ar pr d al sl ra re]; cbn in *; try assumption.
    + intros x. destruct d; cbn; [|apply H3|discriminate].
      destruct (Z.eqb_spec k 0); [discriminate|]. intros _.
      exists k. split; [assumption|apply In_last].
    + intros e. destruct d; cbn; [|discriminate|apply H4].
      destruct (Z.eqb_spec k 0) as [->|]; [|discriminate]. intros [= <-].
      left. split; [reflexivity|apply In_last].
  - cbn [perform step fst]. unfold on_publish_failed.
    apply update_owed; [exact H'|]. intros -> c [Hg H1 H2 H3 H4 H5].
    split; [now apply grounded_isDown|..];
      destruct c as [fn ar pr d al sl ra re]; cbn in *; try assumption.
    + intros x. destruct d; cbn; [discriminate|apply H3|discriminate].
    + intros e. destruct d; cbn; [|discriminate|apply H4].
      intros [= <-]. right. apply In_last.
  - now apply onCallback_owed.
  - cbn [perform step fst]. unfold on_timer.
    apply update_owed; [exact H'|]. intros -> c [Hg H1 H2 H3 H4 H5].
    split; [now apply grounded_sleep|..];
      destruct c as [fn ar pr d al sl ra re]; cbn in *; try assumption.
    intros _. apply In_last.
Qed.

Lemma exec_owed id acts st :
  Inv st -> owed id [] st -> owed id acts (exec st acts).
Proof.
  intros Hi H. induction acts as [|a r IH] using rev_ind; [exact H|].
  rewrite exec_app. apply perform_owed; [now apply exec_inv|exact IH].
Qed.

Lemma new_owed sid cid tmo sfx id : owed id [] (new sid cid tmo sfx).
Proof. intros c. cbn. now rewrite lookup_empty. Qed.

Lemma issued_owed sid cid tmo sfx history n args id st1 pub acts :
  remotify n args (exec (new sid cid tmo sfx) history) = (id, st1, pub) ->
  exists c,
    calls (exec st1 acts) !! id = Some c
    /\ c_fnname c = n /\ c_args c = args
    /\ answered sid id acts c.
Proof.
  intros Hrem.
  destruct (issued_call _ _ _ _ _ _ _ _ _ _ acts Hrem)
    as (c & [Hi Hc _] & Hn & Ha & _ & _ & Hs).
  exists c. split; [exact Hc|]. split; [exact Hn|]. split; [exact Ha|].
  rewrite <- Hs. apply exec_owed; [| |exact Hc].
  - destruct (remotify_fresh _ _ _ _ _ _ Hrem) as (_ & _ & _ & _ & _ & _ & _ & ->).
    apply perform_inv, exec_inv, new_inv.
  - intros c1 Hc1.
    destruct (remotify_fresh _ _ _ _ _ _ Hrem) as (_ & _ & Hf & _).
    rewrite Hf in Hc1. injection Hc1 as <-. apply answered_fresh.
Qed.

Lemma settled_promises c :
  grounded c ->
  (forall v, c_result c = Fulfilled v ->
             c_promise c = Fulfilled v /\ exists a, c_isDown c = Fulfilled a)
  /\ (forall e, c_result c = Rejected e ->
                c_promise c = Rejected e
                \/ c_isDown c = Rejected e
                \/ (c_sleep c = Fulfilled timedout
                    /\ e = timeout_rejection (c_fnname c) (c_args c))).
Proof.
  intros [G1 G2 G3 G4 G5 G6 G7 G8]. split.
  - intros v E. destruct (G7 v E) as (w & Hw & ->).
    destruct (G1 w (G4 w Hw)) as (a & b & -> & Ha & Hb). eauto.
  - intros e E. destruct (G8 e E) as [Hr|[Hr ->]].
    + destruct (G2 e (G6 e Hr)); auto.
    + auto.
Qed.

Lemma never_fulfilled_when_deaf sid cid tmo sfx acts id v :
  slash_free sid = false ->
  result_of (exec (new sid cid tmo sfx) acts) id <> Some (Fulfilled v).
Proof.
  intros Hs E. unfold result_of in E.
  destruct (calls (exec (new sid cid tmo sfx) acts) !! id) as [c|] eqn:Ec;
    [|discriminate].
  injection E as E.
  pose proof (exec_owed id acts _ (new_inv sid cid tmo sfx)
                (new_owed sid cid tmo sfx id) c Ec) as [Hg H1 _ _ _ _].
  rewrite exec_serverid in H1.
  destruct (proj1 (settled_promises c Hg) v E) as (Ep & _).
  destruct (H1 v Ep) as (a & _ & ns & str & data & success & _ & _ & G2 & _).
  cbn in G2. rewrite (seg_is_slash ns 2 _ Hs) in G2. discriminate.
Qed.

(** X15: a call is fulfilled with [v] only if, since it was issued, its
    publish was reported with a subscriber and a message was delivered that
    passes the guards of [onCallback] and carries the id of the call, a
    truthy [success] and the result [v]. *)
Theorem fulfilled_only_by_reply sid cid tmo sfx history n args id st1 pub acts v :
  remotify n args (exec (new sid cid tmo sfx) history) = (id, st1, pub) ->
  result_of (exec st1 acts) id = Some (Fulfilled v) ->
  (exists a, In a acts /\ accepted_reply sid id true v a)
  /\ exists k, k <> 0 /\ In (Occur (Published id k)) acts.
Proof.
  intros Hrem E.
  destruct (issued_owed _ _ _ _ _ _ _ _ _ _ acts Hrem)
    as (c & Hc & _ & _ & [Hg H1 _ H3 _ _]).
  unfold result_of in E. rewrite Hc in E. injection E as E.
  destruct (proj1 (settled_promises c Hg) v E) as (Ep & a & Ea). eauto.
Qed.

(** X15, an instance: the first call of [Squarer.square], fulfilled with 25. *)
Lemma fulfilled_only_by_reply_witness :
  let acts :=
    [Occur (Published 1 1);
     Occur (Message "/remotify/backend/callback/unnamed_0a"
              (dq "{'method':'m','callback':1,'success':true,'result':25}"))] in
  (exists a, In a acts /\ accepted_reply "backend" 1 true (VNum 25) a)
  /\ exists k, k <> 0 /\ In (Occur (Published 1 k)) acts.
Proof.
  apply (fulfilled_only_by_reply "backend" "unnamed" 60000 "0a" []
           "Squarer.square" [VNum 5] 1 (snd (fst example_call))
           (snd example_call)); reflexivity.
Defined.

(** X16: a call is rejected with [e] only in one of four ways: a reply with
    a falsy [success] and the result [e] was accepted; the publish was
    reported with no subscriber, and [e] is the error that names the server;
    the publish failed with [e]; or the timer fired, and [e] is the record
    of the timeout. *)
Theorem rejected_only_by_events sid cid tmo sfx history n args id st1 pub acts e :
  remotify n args (exec (new sid cid tmo sfx) history) = (id, st1, pub) ->
  result_of (exec st1 acts) id = Some (Rejected e) ->
  (exists a, In a acts /\ accepted_reply sid id false e a)
  \/ (e = backend_down_error sid /\ In (Occur (Published id 0)) acts)
  \/ In (Occur (PublishFailed id e)) acts
  \/ (e = timeout_rejection n args /\ In (Occur (TimerFired id)) acts).
Proof.
  intros Hrem E.
  destruct (issued_owed _ _ _ _ _ _ _ _ _ _ acts Hrem)
    as (c & Hc & Hn & Ha & [Hg _ H2 _ H4 H5]).
  unfold result_of in E. rewrite Hc in E. injection E as E.
  destruct (proj2 (settled_promises c Hg) e E) as [Ep|[Ed|[Es ->]]].
  - left. auto.
  - right. destruct (H4 e Ed) as [[-> Hin]|Hin]; auto.
  - right; right; right. rewrite Hn, Ha. auto.
Qed.

(** X16, an instance: the first call of [Squarer.square], timed out. *)
Lemma rejected_only_by_events_witness :
  let e := timeout_rejection "Squarer.square" [VNum 5] in
  let acts := [Occur (TimerFired 1)] in
  (exists a, In a acts /\ accepted_reply "backend" 1 false e a)
  \/ (e = backend_down_error "backend" /\ In (Occur (Published 1 0)) acts)
  \/ In (Occur (PublishFailed 1 e)) acts
  \/ (e = timeout_rejection "Squarer.square" [VNum 5]
      /\ In (Occur (TimerFired 1)) acts).
Proof.
  apply (rejected_only_by_events "backend" "unnamed" 60000 "0a" []
           "Squarer.square" [VNum 5] 1 (snd (fst example_call))
           (snd example_call)); reflexivity.
Defined.

(** X17: once the result of a call is settled no later action changes it,
    and once its registry entry is gone no later action brings it back. *)
Theorem settled_call_stays_settled sid cid tmo sfx history n args id st1 pub
    acts later :
  remotify n args (exec (new sid cid tmo sfx) history) = (id, st1, pub) ->
  (forall p,
      result_of (exec st1 acts) id = Some p -> p <> Pending ->
      result_of (exec (exec st1 acts) later) id = Some p)
  /\ (callbacks (exec st1 acts) !! id = None ->
      callbacks (exec (exec st1 acts) later) !! id = None).
Proof.
  intros Hrem.
  destruct (issued_call _ _ _ _ _ _ _ _ _ _ acts Hrem)
    as (c & T & _ & _ & _ & Hid & _).
  split.
  - intros p Hp Hne. rewrite (tracks_result _ _ _ _ T) in Hp. injection Hp as <-.
    now apply (settled_stays _ _ _ _ later T).
  - intros Hgone. destruct T as [Hi _ _]. now apply exec_gone.
Qed.

(** X17, an instance: a report and a reply after the timeout. *)
Lemma settled_call_stays_settled_witness :
  let st := exec (snd (fst example_call)) [Occur (TimerFired 1)] in
  let later :=
    [Occur (Published 1 1);
     Occur (Message "/remotify/backend/callback/unnamed_0a"
              (dq "{'method':'m','callback':1,'success':true,'result':25}"))] in
  result_of (exec st later) 1
  = Some (Rejected (timeout_rejection "Squarer.square" [VNum 5]))
  /\ callbacks (exec st later) !! 1 = None.
Proof.
  destruct (settled_call_stays_settled "backend" "unnamed" 60000 "0a" []
              "Squarer.square" [VNum 5] 1 (snd (fst example_call))
              (snd example_call) [Occur (TimerFired 1)]
              [Occur (Published 1 1);
               Occur (Message "/remotify/backend/callback/unnamed_0a"
                        (dq "{'method':'m','callback':1,'success':true,'result':25}"))]
              eq_refl) as (H1 & H2).
  split.
  - apply H1; [reflexivity|discriminate].
  - apply H2. reflexivity.
Defined.

(** ** Identities *)

(** X18: a server id or a namespace with a ["/"] in it is never matched:
    the listener, the caller and the event subscriber of such an identity
    ignore every message, those on their own topics included, and no call
    of such a caller is ever fulfilled. *)
Theorem identity_with_slash_is_deaf (L : Listen.t) (R : Remotify.t)
    (S : RedisEventSubscriber.t) (ns str : string) :
  (slash_free (Listen.serverid L) = false ->
   Listen.onCall L ns str = (L, Normal None))
  /\ (slash_free (serverid R) = false ->
      onCallback R ns str = (R, Normal tt))
  /\ (slash_free (RedisEventSubscriber.ns S) = false ->
      RedisEventSubscriber.onEvent S ns str = (S, Normal None))
  /\ (forall sid cid tmo sfx acts id v,
         slash_free sid = false ->
         result_of (exec (new sid cid tmo sfx) acts) id <> Some (Fulfilled v)).
Proof.
  split; [|split; [|split]].
  - intros H. unfold Listen.onCall. rewrite (seg_is_slash ns 2 _ H). cbn [negb].
    now destruct (seg_is _ "remotify").
  - intros H. unfold onCallback. rewrite (seg_is_slash ns 2 _ H). cbn [negb].
    now destruct (seg_is _ "remotify").
  - intros H. unfold RedisEventSubscriber.onEvent.
    rewrite (seg_is_slash ns 2 _ H). cbn [negb].
    now destruct (seg_is _ "remotifyEvent").
  - intros sid cid tmo sfx acts id v. apply never_fulfilled_when_deaf.
Qed.

(** X18, an instance: a listener of [eu/backend] ignores a call of its own
    function on its own topic. *)
Lemma identity_with_slash_is_deaf_witness :
  Listen.onCall (Listen.listen square "square" (Listen.new "eu/backend"))
    (call_topic "eu/backend" "square")
    (dq "{'clientid':'unnamed_0a','callback':1,'arguments':[5]}")
  = (Listen.listen square "square" (Listen.new "eu/backend"), Normal None).
Proof.
  apply (proj1 (identity_with_slash_is_deaf
                  (Listen.listen square "square" (Listen.new "eu/backend"))
                  example_caller example_subscriber
                  (call_topic "eu/backend" "square")
                  (dq "{'clientid':'unnamed_0a','callback':1,'arguments':[5]}"))).
  reflexivity.
Defined.

Lemma hex_pair_inv (b : ascii) :
  exists h l,
    hex_value (hex_digit (N_of_ascii b / 16)) = Some h
    /\ hex_value (hex_digit (N_of_ascii b mod 16)) = Some l
    /\ ascii_of_N (16 * h + l) = b.
Proof.
  destruct b as [[] [] [] [] [] [] [] []]; eexists; eexists;
    (split; [|split]); vm_compute; reflexivity.
Qed.

Lemma to_hex_inj (b1 b2 : list ascii) : to_hex b1 = to_hex b2 -> b1 = b2.
Proof.
  revert b2. induction b1 as [|x r IH]; intros [|y r']; simpl;
    try discriminate; [reflexivity|].
  intros [= Hh Hl Hr]. f_equal; [|now apply IH].
  destruct (hex_pair_inv x) as (h & l & Eh & El & <-).
  destruct (hex_pair_inv y) as (h' & l' & Eh' & El' & <-).
  congruence.
Qed.

Lemma hex_digit_slash (b : ascii) :
  Ascii.eqb (hex_digit (N_of_ascii b / 16)) "/" = false
  /\ Ascii.eqb (hex_digit (N_of_ascii b mod 16)) "/" = false.
Proof. destruct b as [[] [] [] [] [] [] [] []]; split; vm_compute; reflexivity. Qed.

(** X19: [randomid] writes two characters for each random byte, none of
    them a ["/"], and different bytes give different ids: two callers of one
    server id and one configured client id, made from different random
    bytes, subscribe to different reply topics. *)
Theorem randomid_identities (bytes1 bytes2 : list ascii) sid cid tmo :
  String.length (randomid bytes1) = (2 * List.length bytes1)%nat
  /\ slash_free (randomid bytes1) = true
  /\ (randomid bytes1 = randomid bytes2 -> bytes1 = bytes2)
  /\ (bytes1 <> bytes2 ->
      subscription (new sid cid tmo (randomid bytes1))
      <> subscription (new sid cid tmo (randomid bytes2))).
Proof.
  unfold randomid. split; [|split; [|split]].
  - induction bytes1 as [|b r IH]; simpl; [reflexivity|]. rewrite IH. lia.
  - induction bytes1 as [|b r IH]; simpl; [reflexivity|].
    destruct (hex_digit_slash b) as [-> ->]. exact IH.
  - apply to_hex_inj.
  - intros Hne E. apply Hne, to_hex_inj.
    unfold subscription, callback_topic in E. cbn [serverid config_clientid new] in E.
    repeat (apply String.app_inj in E). exact E.
Qed.

(** X19, an instance: the bytes [a], [b] give [6162]. *)
Lemma randomid_identities_witness :
  String.length (randomid ["a"; "b"]%char) = 4%nat
  /\ randomid ["a"; "b"]%char = "6162"
  /\ subscription (new "backend" "unnamed" 60000 (randomid ["a"]%char))
     <> subscription (new "backend" "unnamed" 60000 (randomid ["b"]%char)).
Proof.
  destruct (randomid_identities ["a"; "b"]%char [] "backend" "unnamed" 60000)
    as (H1 & _).
  destruct (randomid_identities ["a"]%char ["b"]%char "backend" "unnamed" 60000)
    as (_ & _ & _ & H4).
  split; [exact H1|]. split; [reflexivity|]. apply H4. discriminate.
Defined.
